(** * chatbot-ui: the credential pool (KeyStore) and the completion relay

    A shallow embedding of [src/utils/server/KeyStore.ts] and of the
    [OpenAIStream] function, with the properties of the credential pool,
    of the eviction/retry protocol and of the re-framing producer.

    Conventions.
    - An asynchronous method is a computation of the monad [M]: a function
      of the [World] that gives an [Outcome] (returned value or thrown
      exception) and the world afterwards.  What a method wrote before it
      threw stays written, as in JavaScript.
    - Everything the process does not control (files, the key server, the
      completion API, [Math.random]) is a table in the [Outside] record,
      indexed by how many times it has been asked before, so that no
      theorem assumes anything about those services that is not stated as a
      hypothesis.
    - A JavaScript string is a [string]; [TextEncoder.encode] gives its
      bytes.  A JavaScript number in [0,1) drawn by [Math.random] is a
      rational. *)

From Stdlib Require Import String Ascii List Arith Bool Lia ZArith QArith Qround.
From Stdlib Require Import Strings.Byte.
Import ListNotations.
Set Warnings "-register-all".
Local Open Scope string_scope.
Local Open Scope nat_scope.

(** ** Key types and exceptions *)

(** [export enum KeyType { HIGHEST, GPT3 = 3, GPT4 }] *)
Inductive KeyType := HIGHEST | GPT3 | GPT4.

Definition KeyType_value (t : KeyType) : nat :=
  match t with HIGHEST => 0 | GPT3 => 3 | GPT4 => 4 end.

Definition KeyType_eqb (a b : KeyType) : bool :=
  KeyType_value a =? KeyType_value b.

(** The fields [new OpenAIError(result)] copies out of the error body. *)
Record OpenAIErrorFields := {
  message : string;
  type_ : string;
  param : string;
  code : string
}.

Inductive Exn :=
| Error_NoKeysAvailable (t : KeyType)     (* `No keys available for GPT-${type}` *)
| Error_KeyServerNotConfigured            (* "Key server not configured" *)
| Error_loadKeys                          (* reading or parsing the credential source failed *)
| Error_fetch                             (* a request was not answered, or not with JSON *)
| OpenAIError (e : OpenAIErrorFields)
| Error_OpenAI_API                        (* "OpenAI API returned an error: ..." *)
| SyntaxError                             (* JSON.parse *)
| TypeError.                              (* property of undefined/null, closed controller *)

(** ** The environment and the outside world *)

Record ProcessEnv := {
  OPENAI_API_KEY_SERVER : option string;
  OPENAI_API_KEY_SERVER_AUTH : option string;
  OPENAI_API_KEYS_FILE : option string;
  OPENAI_API_KEY : option string
}.

(** JavaScript truthiness of a [string | undefined]. *)
Definition truthy (v : option string) : bool :=
  match v with
  | Some s => negb (String.eqb s "")
  | None => false
  end.

Definition text_of (v : option string) : string :=
  match v with Some s => s | None => "" end.

(** One record of the credential source:
    [{ key: string; type: "gpt-3" | "gpt-4" }]. *)
Record SourceRecord := { src_key : string; src_type : string }.

(** [interface Key { key: string; type: KeyType }] *)
Record Key := { key : string; type : KeyType }.

(** Modelled from the spec: [OpenAIModel] is declared in types/openai,
    which is not among the sources; [OpenAIStream] reads its [id] only. *)
Record OpenAIModel := { id : string; name : string }.

(** Modelled from the spec: [Message] is declared in types/chat, which is
    not among the sources; [OpenAIStream] only forwards the messages. *)
Record Message := { role : string; content : string }.

(** What goes into the body of a completion request.  The host, the API
    type and version and the organization of utils/app/const only shape
    the URL and the headers of the request. *)
Record ChatRequest := {
  model : OpenAIModel;
  systemPrompt : string;
  temperature : Q;
  messages : list Message
}.

(** What the event-stream parser hands to [onParse]:
    [ParsedEvent | ReconnectInterval]. *)
Inductive ParserOutput :=
| ParsedEvent (data : string)
| ReconnectInterval (value : nat).

(** [await res.json()] of a completion response, as far as [OpenAIStream]
    looks into it. *)
Inductive JsonView :=
| json_rejects                          (* the body is not JSON *)
| json_null                             (* the body is the JSON null *)
| json_without_error                    (* [result.error] is falsy, no [result.value] *)
| json_value_without_error              (* [result.error] is falsy, [result.value] is there *)
| json_error (e : OpenAIErrorFields).   (* [result.error] is an object *)

Record Response := {
  status : nat;
  res_json : JsonView;
  res_body : list ParserOutput   (* the events the parser finds in the body *)
}.

Record Outside := {
  (* content of the file of that name at the n-th load: the parsed array,
     or None when reading or JSON.parse throws *)
  readLocalKeysFile_reply : nat -> string -> option (list SourceRecord);
  (* POST /getKeys at the n-th load, by server and authKey *)
  getKeys_reply : nat -> string -> string -> option (list SourceRecord);
  (* POST /deleteKey, n-th request, by server, authKey and key: the
     [success] member of the parsed answer as a caller tests it (a missing
     member is falsy), or None when no member can be read *)
  deleteKey_reply : nat -> string -> string -> string -> option bool;
  (* when no member can be read: true when the answer is the JSON null,
     false when the request fails or its body is not JSON *)
  deleteKey_null : nat -> string -> string -> string -> bool;
  (* the n-th value of Math.random() *)
  Math_random : nat -> Q;
  (* the n-th completion request, by credential and request:
     None when fetch rejects *)
  completions_reply : nat -> string -> ChatRequest -> option Response
}.

(** The static fields of [class KeyStore]. *)
Record KeyStoreFields := {
  initialized : bool;
  gpt3keys : list string;
  gpt4keys : list string
}.

Record World := {
  env : ProcessEnv;
  statics : KeyStoreFields;
  outside : Outside;
  loads : nat;               (* calls of loadKeys so far *)
  deletions : nat;           (* /deleteKey requests so far *)
  draws : nat;               (* Math.random() calls so far *)
  requests : list string     (* credentials sent to the completion API, oldest first *)
}.

(** ** The monad of asynchronous methods *)

Inductive Outcome (A : Type) :=
| Returned (a : A)
| Thrown (e : Exn)
| Running.   (* the recursion did not finish within the given depth *)
Arguments Returned {A} a.
Arguments Thrown {A} e.
Arguments Running {A}.

Definition M (A : Type) : Type := World -> Outcome A * World.

Definition ret {A} (a : A) : M A := fun w => (Returned a, w).

Definition throw {A} (e : Exn) : M A := fun w => (Thrown e, w).

Definition bind {A B} (c : M A) (k : A -> M B) : M B :=
  fun w =>
    match c w with
    | (Returned a, w') => k a w'
    | (Thrown e, w') => (Thrown e, w')
    | (Running, w') => (Running, w')
    end.

Declare Scope async_scope.
Delimit Scope async_scope with async.
Notation "x <- c ;; k" := (bind c (fun x => k))
  (at level 61, c at next level, right associativity) : async_scope.
Notation "c ;;; k" := (bind c (fun _ => k))
  (at level 61, right associativity) : async_scope.
Local Open Scope async_scope.

Definition get_env : M ProcessEnv := fun w => (Returned (env w), w).

Definition get_statics : M KeyStoreFields := fun w => (Returned (statics w), w).

Definition set_statics (s : KeyStoreFields) : M unit :=
  fun w =>
    (Returned tt,
     {| env := env w; statics := s; outside := outside w; loads := loads w;
        deletions := deletions w; draws := draws w; requests := requests w |}).

(** ** KeyStore *)

Module KeyStore.

(** [this.readLocalKeysFile(...)] / [this.getAllKeysFromKeyServer(...)]
    followed by [JSON.parse]: the array of records of the configured
    source, read at this moment. *)
Definition read_source : M (list SourceRecord) :=
  fun w =>
    let e := env w in
    let n := loads w in
    let answer :=
      if truthy (OPENAI_API_KEY_SERVER e) && truthy (OPENAI_API_KEY_SERVER_AUTH e)
      then getKeys_reply (outside w) n
             (text_of (OPENAI_API_KEY_SERVER e)) (text_of (OPENAI_API_KEY_SERVER_AUTH e))
      else readLocalKeysFile_reply (outside w) n
             (match OPENAI_API_KEYS_FILE e with Some f => f | None => "keys.json" end) in
    let w' :=
      {| env := env w; statics := statics w; outside := outside w; loads := S n;
         deletions := deletions w; draws := draws w; requests := requests w |} in
    match answer with
    | Some records => (Returned records, w')
    | None => (Thrown Error_loadKeys, w')
    end.

(** [type === "gpt-3" ? KeyType.GPT3 : KeyType.GPT4] *)
Definition to_Key (r : SourceRecord) : Key :=
  {| key := src_key r;
     type := if String.eqb (src_type r) "gpt-3" then GPT3 else GPT4 |}.

Definition loadKeys : M (list Key) :=
  records <- read_source ;;
  ret (map to_Key records).

(** [(key.type === KeyType.GPT4 ? this.gpt4keys : this.gpt3keys).push(key.key)] *)
Definition push_key (s : KeyStoreFields) (k : Key) : KeyStoreFields :=
  if KeyType_eqb (type k) GPT4
  then {| initialized := initialized s; gpt3keys := gpt3keys s;
          gpt4keys := gpt4keys s ++ [key k] |}
  else {| initialized := initialized s; gpt3keys := gpt3keys s ++ [key k];
          gpt4keys := gpt4keys s |}.

Definition forEach_push (keys : list Key) : M unit :=
  s <- get_statics ;;
  set_statics (fold_left push_key keys s).

(** The array [getKey] draws from. *)
Definition select (type : KeyType) (s : KeyStoreFields) : list string :=
  if KeyType_eqb type HIGHEST
  then (if 0 <? length (gpt4keys s) then gpt4keys s else gpt3keys s)
  else (if KeyType_eqb type GPT3 && (0 <? length (gpt3keys s))
        then gpt3keys s else gpt4keys s).

(** [Math.random()] *)
Definition random : M Q :=
  fun w =>
    (Returned (Math_random (outside w) (draws w)),
     {| env := env w; statics := statics w; outside := outside w; loads := loads w;
        deletions := deletions w; draws := S (draws w); requests := requests w |}).

(** [Math.floor(r * n)] *)
Definition floor_times (r : Q) (n : nat) : nat :=
  Z.to_nat (Qfloor (r * inject_Z (Z.of_nat n))).

(** Lines 101-102 of [getKey]: load when the flag is not set. *)
Definition load_if_uninitialized : M unit :=
  s <- get_statics ;;
  if negb (initialized s)
  then keys <- loadKeys ;; forEach_push keys
  else ret tt.

(** Lines 103-108 of [getKey]: choose the array, fail on an empty one,
    set the flag and draw. *)
Definition pick (type : KeyType) : M string :=
  s <- get_statics ;;
  let keys := select type s in
  if length keys =? 0 then throw (Error_NoKeysAvailable type)
  else
    set_statics {| initialized := true; gpt3keys := gpt3keys s;
                   gpt4keys := gpt4keys s |} ;;;
    r <- random ;;
    ret (nth (floor_times r (length keys)) keys "").

Definition getKey (type : KeyType) : M string :=
  e <- get_env ;;
  if truthy (OPENAI_API_KEY e) then ret (text_of (OPENAI_API_KEY e))
  else load_if_uninitialized ;;; pick type.

(** [fetch(`http://${OPENAI_API_KEY_SERVER}/deleteKey`, ...).then(resp => resp.json())]:
    the parsed answer as far as [deleteKey] looks into it, [None] for the
    JSON null. *)
Definition post_deleteKey (server authKey key : string) : M (option bool) :=
  fun w =>
    let w' :=
      {| env := env w; statics := statics w; outside := outside w; loads := loads w;
         deletions := S (deletions w); draws := draws w; requests := requests w |} in
    match deleteKey_reply (outside w) (deletions w) server authKey key with
    | Some success => (Returned (Some success), w')
    | None =>
        if deleteKey_null (outside w) (deletions w) server authKey key
        then (Returned None, w')
        else (Thrown Error_fetch, w')
    end.

Definition deleteKey (key : string) : M bool :=
  e <- get_env ;;
  if negb (truthy (OPENAI_API_KEY_SERVER e)) || negb (truthy (OPENAI_API_KEY_SERVER_AUTH e))
  then throw Error_KeyServerNotConfigured
  else
    response <- post_deleteKey (text_of (OPENAI_API_KEY_SERVER e))
                               (text_of (OPENAI_API_KEY_SERVER_AUTH e)) key ;;
    set_statics {| initialized := false; gpt3keys := []; gpt4keys := [] |} ;;;
    match response with
    | Some success => ret success          (* [response.success] *)
    | None => throw TypeError              (* [null.success] *)
    end.

End KeyStore.

(** ** JSON values, as [onParse] looks into them *)

(** A value [JSON.parse] can give.  A number is kept as the text
    [Number::toString] prints for it. *)
Inductive json :=
| JNull
| JBool (b : bool)
| JNumber (shown : string)
| JString (s : string)
| JArray (items : list json)
| JObject (members : list (string * json)).

(** A JavaScript value met by [onParse]: [None] is [undefined]. *)
Definition jsvalue := option json.

Inductive Try (A : Type) :=
| Done (a : A)
| Raised (e : Exn).
Arguments Done {A} a.
Arguments Raised {A} e.

Definition and_then {A B} (t : Try A) (k : A -> Try B) : Try B :=
  match t with
  | Done a => k a
  | Raised e => Raised e
  end.

(** The own property of that name; of two members with one name
    [JSON.parse] keeps the later. *)
Fixpoint own_member (name : string) (members : list (string * json)) : jsvalue :=
  match members with
  | [] => None
  | (n, v) :: rest =>
      match own_member name rest with
      | Some later => Some later
      | None => if String.eqb n name then Some v else None
      end
  end.

(** [v.name], for the names [onParse] reads (choices, finish_reason, delta,
    content), which no prototype defines. *)
Definition get_member (name : string) (v : jsvalue) : Try jsvalue :=
  match v with
  | None => Raised TypeError
  | Some JNull => Raised TypeError
  | Some (JObject members) => Done (own_member name members)
  | Some _ => Done None
  end.

(** [v[0]] *)
Definition get_index0 (v : jsvalue) : Try jsvalue :=
  match v with
  | None => Raised TypeError
  | Some JNull => Raised TypeError
  | Some (JObject members) => Done (own_member "0" members)
  | Some (JArray items) => Done (hd_error items)
  | Some (JString s) =>
      Done (match s with
            | String c _ => Some (JString (String c EmptyString))
            | EmptyString => None
            end)
  | Some _ => Done None
  end.

(** [v != null] *)
Definition not_nullish (v : jsvalue) : bool :=
  match v with
  | None => false
  | Some JNull => false
  | Some _ => true
  end.

Definition has_own (name : string) (members : list (string * json)) : bool :=
  match own_member name members with Some _ => true | None => false end.

(** [ToString(v)] of a parsed value; [None] when it throws a TypeError
    (an object whose own member hides [toString]). *)
Fixpoint ToString (v : json) : option string :=
  match v with
  | JNull => Some "null"
  | JBool true => Some "true"
  | JBool false => Some "false"
  | JNumber shown => Some shown
  | JString s => Some s
  | JArray items =>
      (fix join (l : list json) : option string :=
         match l with
         | [] => Some ""
         | x :: rest =>
             match (match x with JNull => Some "" | _ => ToString x end), join rest with
             | Some a, Some b =>
                 Some (match rest with [] => a | _ => a ++ "," ++ b end)
             | _, _ => None
             end
         end) items
  | JObject members =>
      if has_own "toString" members then None else Some "[object Object]"
  end.

(** [encoder.encode(text)]: the argument defaults to the empty string. *)
Definition encode (text : jsvalue) : Try (list byte) :=
  match text with
  | None => Done []
  | Some v =>
      match ToString v with
      | Some s => Done (list_byte_of_string s)
      | None => Raised TypeError
      end
  end.

(** ** The controller of the output stream *)

(** [stream.[[state]]] *)
Inductive StreamState :=
| readable
| closed
| errored (e : Exn).

(** A [ReadableStreamDefaultController] with its stream, and the chunks the
    consumer has read so far. *)
Record Controller := {
  state : StreamState;
  closeRequested : bool;
  queue : list (list byte);
  delivered : list (list byte)
}.

Definition new_Controller : Controller :=
  {| state := readable; closeRequested := false; queue := []; delivered := [] |}.

Definition is_readable (c : Controller) : bool :=
  match state c with readable => true | _ => false end.

(** ReadableStreamDefaultControllerCanCloseOrEnqueue *)
Definition canCloseOrEnqueue (c : Controller) : bool :=
  negb (closeRequested c) && is_readable c.

(** [controller.enqueue(chunk)] *)
Definition controller_enqueue (chunk : list byte) (c : Controller) : Try Controller :=
  if canCloseOrEnqueue c
  then Done {| state := state c; closeRequested := closeRequested c;
               queue := queue c ++ [chunk]; delivered := delivered c |}
  else Raised TypeError.

(** [controller.close()]: the stream closes at once when nothing is queued,
    and when the last queued chunk is read otherwise. *)
Definition controller_close (c : Controller) : Try Controller :=
  if canCloseOrEnqueue c
  then Done {| state := match queue c with [] => closed | _ => readable end;
               closeRequested := true;
               queue := queue c; delivered := delivered c |}
  else Raised TypeError.

(** [controller.error(e)]: nothing when the stream is not readable. *)
Definition controller_error (e : Exn) (c : Controller) : Controller :=
  if is_readable c
  then {| state := errored e; closeRequested := closeRequested c;
          queue := []; delivered := delivered c |}
  else c.

(** The consumer's [reader.read()] when a chunk is queued; with nothing
    queued the read waits (or ends) and changes nothing here. *)
Definition consumer_read (c : Controller) : Controller :=
  match state c, queue c with
  | readable, chunk :: rest =>
      {| state := match rest with
                  | [] => if closeRequested c then closed else readable
                  | _ => readable
                  end;
         closeRequested := closeRequested c;
         queue := rest;
         delivered := delivered c ++ [chunk] |}
  | _, _ => c
  end.

(** ** The re-framing producer *)

Section Reframing.

(** [JSON.parse]: [None] when it throws a SyntaxError. *)
Variable JSON_parse : string -> option json.

(** The body of the [try] block of [onParse]. *)
Definition onParse_try (data : string) (c : Controller) : Try Controller :=
  match JSON_parse data with
  | None => Raised SyntaxError
  | Some parsed =>
      and_then (get_member "choices" (Some parsed)) (fun choices =>
      and_then (get_index0 choices) (fun choice =>
      and_then (get_member "finish_reason" choice) (fun finish_reason =>
      if not_nullish finish_reason then controller_close c
      else
        and_then (get_member "delta" choice) (fun delta =>
        and_then (get_member "content" delta) (fun text =>
        and_then (encode text) (fun chunk =>
        controller_enqueue chunk c))))))
  end.

Definition onParse (event : ParserOutput) (c : Controller) : Controller :=
  match event with
  | ParsedEvent data =>
      match onParse_try data c with
      | Done c' => c'
      | Raised e => controller_error e c
      end
  | ReconnectInterval _ => c
  end.

(** The stream [OpenAIStream] returns: the upstream events [start] has not
    fed yet, and the controller. *)
Record ReadableStream := {
  upstream : list ParserOutput;
  controller : Controller
}.

(** Who runs next: the producer feeds the next upstream event to
    [onParse], or the consumer reads. *)
Inductive Turn := producer | consumer.

Definition turn (s : ReadableStream) (t : Turn) : ReadableStream :=
  match t with
  | producer =>
      match upstream s with
      | event :: rest =>
          {| upstream := rest; controller := onParse event (controller s) |}
      | [] => s
      end
  | consumer =>
      {| upstream := upstream s; controller := consumer_read (controller s) |}
  end.

Definition run (schedule : list Turn) (s : ReadableStream) : ReadableStream :=
  fold_left turn schedule s.

End Reframing.

(** ** The relay *)

(** [await fetch(`${OPENAI_API_HOST}/...chat/completions`, ...)] with the
    credential in the headers. *)
Definition fetch_completions (key : string) (request : ChatRequest) : M Response :=
  fun w =>
    let w' :=
      {| env := env w; statics := statics w; outside := outside w; loads := loads w;
         deletions := deletions w; draws := draws w; requests := requests w ++ [key] |} in
    match completions_reply (outside w) (length (requests w)) key request with
    | Some res => (Returned res, w')
    | None => (Thrown Error_fetch, w')
    end.

Definition running {A} : M A := fun w => (Running, w).

(** Lines 117-149 of [OpenAIStream]: settle the credential and send the
    request; gives the credential used and the response. *)
Definition send (model : OpenAIModel) (systemPrompt : string) (temperature : Q)
    (key : string) (messages : list Message) : M (string * Response) :=
  let keyType := if String.eqb (id model) "gpt-4" then GPT4 else GPT3 in
  key <- (if negb (truthy (Some key)) then KeyStore.getKey keyType else ret key) ;;
  res <- fetch_completions key
           {| model := model; systemPrompt := systemPrompt;
              temperature := temperature; messages := messages |} ;;
  ret (key, res).

(** [OpenAIStream(model, systemPrompt, temperature, key, messages)]; the
    first argument bounds the depth of the recursion. *)
Fixpoint OpenAIStream (depth : nat) (model : OpenAIModel) (systemPrompt : string)
    (temperature : Q) (key : string) (messages : list Message) : M ReadableStream :=
  match depth with
  | 0 => running
  | S depth' =>
      sent <- send model systemPrompt temperature key messages ;;
      let key := fst sent in
      let res := snd sent in
      if negb (status res =? 200)
      then
        match res_json res with
        | json_rejects => throw SyntaxError
        | json_null => throw TypeError
        | json_without_error => throw Error_OpenAI_API
        | json_value_without_error =>
            (* [decoder.decode(result?.value)]: a parsed JSON value is no buffer *)
            throw TypeError
        | json_error error =>
            if String.eqb (code error) "invalid_api_key"
            then
              KeyStore.deleteKey key ;;;
              key <- KeyStore.getKey HIGHEST ;;
              OpenAIStream depth' model systemPrompt temperature key messages
            else throw (OpenAIError error)
        end
      else ret {| upstream := res_body res; controller := new_Controller |}
  end.

(** ** The vocabulary of the specification *)

(** No static override credential: [process.env.OPENAI_API_KEY] is unset or
    empty. *)
Definition no_override (w : World) : Prop :=
  truthy (OPENAI_API_KEY (env w)) = false.

(** [Math.random()] gives a number of [0,1). *)
Definition Math_random_in_range (w : World) : Prop :=
  forall n, (0 <= Math_random (outside w) n)%Q /\ (Math_random (outside w) n < 1)%Q.

(** The pool at process start and after an eviction. *)
Definition empty_pool : KeyStoreFields :=
  {| initialized := false; gpt3keys := []; gpt4keys := [] |}.

Definition is_gpt3 (r : SourceRecord) : bool := String.eqb (src_type r) "gpt-3".

(** The Standard and the Premium credentials among the records of a source. *)
Definition standard_keys (records : list SourceRecord) : list string :=
  map src_key (filter is_gpt3 records).

Definition premium_keys (records : list SourceRecord) : list string :=
  map src_key (filter (fun r => negb (is_gpt3 r)) records).

(** The two tiers the specification gives to [acquire]. *)
Inductive Tier := highest_available | Standard_preferred.

Definition tier_argument (t : Tier) : KeyType :=
  match t with
  | highest_available => HIGHEST
  | Standard_preferred => GPT3
  end.

(** The specification's selection: the preferred set when it is not empty,
    the other set otherwise. *)
Definition effective_set (t : Tier) (s : KeyStoreFields) : list string :=
  match t with
  | highest_available =>
      match gpt4keys s with [] => gpt3keys s | _ => gpt4keys s end
  | Standard_preferred =>
      match gpt3keys s with [] => gpt4keys s | _ => gpt3keys s end
  end.

(** A response that reports an invalid credential: a status other than 200
    and an error body with the code "invalid_api_key". *)
Definition reports_invalid_credential (res : Response) : Prop :=
  status res <> 200 /\
  exists error, res_json res = json_error error /\ code error = "invalid_api_key".

(** The world after a load that answered [records]. *)
Definition loaded (records : list SourceRecord) (w : World) : World :=
  {| env := env w;
     statics := fold_left KeyStore.push_key (map KeyStore.to_Key records) (statics w);
     outside := outside w; loads := S (loads w); deletions := deletions w;
     draws := draws w; requests := requests w |}.

(** The world after a load that failed. *)
Definition load_failed (w : World) : World :=
  {| env := env w; statics := statics w; outside := outside w; loads := S (loads w);
     deletions := deletions w; draws := draws w; requests := requests w |}.

(** What the configured source answers to a load made now. *)
Definition source_now (w : World) : option (list SourceRecord) :=
  match KeyStore.read_source w with
  | (Returned records, _) => Some records
  | _ => None
  end.

(** The world after a successful draw: the flag set, one more draw made. *)
Definition drawn (w : World) : World :=
  {| env := env w;
     statics := {| initialized := true; gpt3keys := gpt3keys (statics w);
                   gpt4keys := gpt4keys (statics w) |};
     outside := outside w; loads := loads w; deletions := deletions w;
     draws := S (draws w); requests := requests w |}.

(** The world after a deletion request that was answered. *)
Definition evicted (w : World) : World :=
  {| env := env w; statics := empty_pool; outside := outside w; loads := loads w;
     deletions := S (deletions w); draws := draws w; requests := requests w |}.

(** Successive calls of [getKey], each on the world the one before left. *)
Fixpoint acquire_sequence (tiers : list KeyType) (w : World)
  : list (Outcome string) * World :=
  match tiers with
  | [] => ([], w)
  | t :: rest =>
      let (r, w1) := KeyStore.getKey t w in
      let (rs, w2) := acquire_sequence rest w1 in
      (r :: rs, w2)
  end.

(** An acquire that gave a credential. *)
Definition returned (r : Outcome string) : bool :=
  match r with
  | Returned _ => true
  | _ => false
  end.

(** The acquires of a sequence up to and including the first that gave a
    credential, counted from their outcomes; all of them when none did. *)
Fixpoint acquires_until_returned (outcomes : list (Outcome string)) : nat :=
  match outcomes with
  | [] => 0
  | Returned _ :: _ => 1
  | _ :: rest => S (acquires_until_returned rest)
  end.

(** [choices[0]] of a payload. *)
Definition first_choice (parsed : json) : Try jsvalue :=
  and_then (get_member "choices" (Some parsed)) get_index0.

(** A delta event with that content: the first choice has no finish reason
    and its [delta.content] is the string. *)
Definition delta_event (JSON_parse : string -> option json)
    (data text : string) : Prop :=
  exists parsed choice finish_reason delta,
    JSON_parse data = Some parsed /\
    first_choice parsed = Done choice /\
    get_member "finish_reason" choice = Done finish_reason /\
    not_nullish finish_reason = false /\
    get_member "delta" choice = Done delta /\
    get_member "content" delta = Done (Some (JString text)).

(** An event whose first choice has a non-null finish reason. *)
Definition finish_event (JSON_parse : string -> option json) (data : string) : Prop :=
  exists parsed choice finish_reason,
    JSON_parse data = Some parsed /\
    first_choice parsed = Done choice /\
    get_member "finish_reason" choice = Done finish_reason /\
    not_nullish finish_reason = true.

(** The states of the specification's machine for the re-framing
    producer, read off the controller: Closed-Error once [controller.error]
    has taken effect, Closed-Success from the call of [controller.close()]
    on (the finish record seen), whether or not chunks are still queued,
    and Streaming before. *)
Inductive ReframingState := Streaming | Closed_Success | Closed_Error.

Definition reframing_state (c : Controller) : ReframingState :=
  match state c with
  | errored _ => Closed_Error
  | closed => Closed_Success
  | readable => if closeRequested c then Closed_Success else Streaming
  end.

(** The three-record example of the specification: the stream once [fed]
    of its records have gone through [onParse] and the consumer has read
    [read] chunks. *)
Definition Hel_lo_chunks : list (list byte) :=
  [list_byte_of_string "Hel"; list_byte_of_string "lo"].

Definition Hel_lo_stream (d1 d2 d3 : string) (fed read : nat) : ReadableStream :=
  {| upstream := skipn fed [ParsedEvent d1; ParsedEvent d2; ParsedEvent d3];
     controller :=
       {| state := if (fed =? 3) && (read =? 2) then closed else readable;
          closeRequested := fed =? 3;
          queue := skipn read (firstn fed Hel_lo_chunks);
          delivered := firstn read Hel_lo_chunks |} |}.

(** ** Sample worlds and records *)

Module Sample.

(** Writes a JSON text with ' for the double quote. *)
Fixpoint dq (s : string) : string :=
  match s with
  | EmptyString => EmptyString
  | String c rest => String (if Ascii.eqb c "'" then "034" else c) (dq rest)
  end.

Definition record_Hel : string := dq "{'choices':[{'delta':{'content':'Hel'}}]}".
Definition record_lo : string := dq "{'choices':[{'delta':{'content':'lo'}}]}".
Definition record_stop : string := dq "{'choices':[{'finish_reason':'stop','delta':{}}]}".
Definition record_DONE : string := "[DONE]".

Definition delta_payload (text : string) : json :=
  JObject [("choices",
            JArray [JObject [("delta", JObject [("content", JString text)])]])].

(** [JSON.parse] on the records above; any other text is taken as not
    JSON, as "[DONE]" is. *)
Definition JSON_parse (data : string) : option json :=
  if String.eqb data record_Hel then Some (delta_payload "Hel")
  else if String.eqb data record_lo then Some (delta_payload "lo")
  else if String.eqb data record_stop
  then Some (JObject [("choices",
                       JArray [JObject [("finish_reason", JString "stop");
                                        ("delta", JObject [])]])])
  else None.

Definition silent : Outside :=
  {| readLocalKeysFile_reply := fun _ _ => None;
     getKeys_reply := fun _ _ _ => None;
     deleteKey_reply := fun _ _ _ _ => None;
     deleteKey_null := fun _ _ _ _ => false;
     Math_random := fun _ => 0%Q;
     completions_reply := fun _ _ _ => None |}.

Definition start (e : ProcessEnv) (o : Outside) : World :=
  {| env := e; statics := empty_pool; outside := o; loads := 0;
     deletions := 0; draws := 0; requests := [] |}.

Definition with_statics (s : KeyStoreFields) (w : World) : World :=
  {| env := env w; statics := s; outside := outside w; loads := loads w;
     deletions := deletions w; draws := draws w; requests := requests w |}.

(** A pool behind a key server. *)
Definition server_env : ProcessEnv :=
  {| OPENAI_API_KEY_SERVER := Some "keys.internal:8080";
     OPENAI_API_KEY_SERVER_AUTH := Some "s3cret";
     OPENAI_API_KEYS_FILE := None;
     OPENAI_API_KEY := None |}.

(** A pool read from the file keys.json. *)
Definition file_env : ProcessEnv :=
  {| OPENAI_API_KEY_SERVER := None;
     OPENAI_API_KEY_SERVER_AUTH := None;
     OPENAI_API_KEYS_FILE := None;
     OPENAI_API_KEY := None |}.

(** A key server and a static override credential. *)
Definition override_env : ProcessEnv :=
  {| OPENAI_API_KEY_SERVER := Some "keys.internal:8080";
     OPENAI_API_KEY_SERVER_AUTH := Some "s3cret";
     OPENAI_API_KEYS_FILE := None;
     OPENAI_API_KEY := Some "sk-own" |}.

Definition both_tiers : list SourceRecord :=
  [ {| src_key := "sk-a"; src_type := "gpt-3" |};
    {| src_key := "sk-b"; src_type := "gpt-4" |} ].

Definition invalid_api_key : Response :=
  {| status := 401;
     res_json := json_error {| message := "Incorrect API key provided";
                               type_ := "invalid_request_error";
                               param := ""; code := "invalid_api_key" |};
     res_body := [] |}.

Definition ok_response : Response :=
  {| status := 200; res_json := json_rejects;
     res_body := [ParsedEvent record_Hel; ParsedEvent record_lo;
                  ParsedEvent record_stop] |}.

Definition gpt35 : OpenAIModel := {| id := "gpt-3.5-turbo"; name := "GPT-3.5" |}.

(** The key server lists [records] at every load and answers every
    deletion with [success]; the completion API rejects the credential
    [revoked] and accepts any other. *)
Definition served (records : list SourceRecord) (success : bool) (revoked : string)
  : Outside :=
  {| readLocalKeysFile_reply := fun _ _ => None;
     getKeys_reply := fun _ _ _ => Some records;
     deleteKey_reply := fun _ _ _ _ => Some success;
     deleteKey_null := fun _ _ _ _ => false;
     Math_random := fun _ => 0%Q;
     completions_reply := fun _ k _ =>
       Some (if String.eqb k revoked then invalid_api_key else ok_response) |}.

(** The file keys.json holds [records]; there is no key server. *)
Definition on_file (records : list SourceRecord) (revoked : string) : Outside :=
  {| readLocalKeysFile_reply := fun _ f =>
       if String.eqb f "keys.json" then Some records else None;
     getKeys_reply := fun _ _ _ => None;
     deleteKey_reply := fun _ _ _ _ => None;
     deleteKey_null := fun _ _ _ _ => false;
     Math_random := fun _ => 0%Q;
     completions_reply := fun _ k _ =>
       Some (if String.eqb k revoked then invalid_api_key else ok_response) |}.

(** A populated pool behind a key server that refuses deletions. *)
Definition refusing_server : World :=
  with_statics {| initialized := true; gpt3keys := ["sk-a"]; gpt4keys := ["sk-b"] |}
    (start server_env (served both_tiers false "sk-a")).

(** A populated pool behind a key server that answers every deletion
    with the JSON null. *)
Definition null_server : World :=
  with_statics {| initialized := true; gpt3keys := ["sk-a"]; gpt4keys := ["sk-b"] |}
    (start server_env
       {| readLocalKeysFile_reply := fun _ _ => None;
          getKeys_reply := fun _ _ _ => Some both_tiers;
          deleteKey_reply := fun _ _ _ _ => None;
          deleteKey_null := fun _ _ _ _ => true;
          Math_random := fun _ => 0%Q;
          completions_reply := fun _ _ _ => Some invalid_api_key |}).

(** A pool on a file that lists no credential. *)
Definition empty_file : World := start file_env (on_file [] "sk-a").

(** An override credential, and a key server that performs deletions. *)
Definition overridden : World := start override_env (served both_tiers true "sk-a").

(** The caller brings a credential of its own; there is no key server. *)
Definition callers_key : World := start file_env (on_file both_tiers "sk-user").

(** A pool on a file that lists two credentials, the first one revoked;
    there is no key server. *)
Definition pool_on_file : World := start file_env (on_file both_tiers "sk-a").

(** A pool behind a key server that refuses deletions, the Standard
    credential revoked. *)
Definition pool_refusing : World := start server_env (served both_tiers false "sk-a").

(** A pool behind a key server that performs deletions, the Standard
    credential revoked. *)
Definition pool_obliging : World := start server_env (served both_tiers true "sk-a").

End Sample.

(** ** Further code: sequences of pool calls *)

(** A call of one of the two public methods of [KeyStore]. *)
Inductive PoolCall :=
| call_getKey (t : KeyType)
| call_deleteKey (k : string).

(** The world after a call, whatever its outcome. *)
Definition pool_call (w : World) (c : PoolCall) : World :=
  match c with
  | call_getKey t => snd (KeyStore.getKey t w)
  | call_deleteKey k => snd (KeyStore.deleteKey k w)
  end.

Definition pool_calls (calls : list PoolCall) (w : World) : World :=
  fold_left pool_call calls w.

(** What every sequence of calls keeps: no override, [Math.random] in
    range, and a flag that is set only over a pool that holds a
    credential. *)
Definition pool_in_order (w : World) : Prop :=
  no_override w /\ Math_random_in_range w /\
  (initialized (statics w) = true ->
   gpt3keys (statics w) <> [] \/ gpt4keys (statics w) <> []).

(** ** Further code: the models handler of pages/api/models.ts *)

(** One entry of [json.data]: [model.id] and [model.model]. *)
Record UpstreamModel := { um_id : string; um_model : option string }.

(** [(await response.json()).error.code], as the loop condition of the
    handler reads it. *)
Inductive ErrorCodeView :=
| error_unreadable                     (* the body is not JSON *)
| error_missing                        (* the JSON is null, or its [error] is undefined or null *)
| error_code (c : option string).      (* [error.code]; None when undefined *)

(** A response of the models endpoint. *)
Record ModelsResponse := {
  m_status : nat;
  m_error : ErrorCodeView;
  m_data : option (list UpstreamModel)   (* [json.data] when the body is JSON and holds that array *)
}.

(** The body of the Response the handler builds. *)
Inductive HandlerBody :=
| body_Error                                   (* "Error" *)
| body_models (models : list OpenAIModel)      (* JSON.stringify(models) *)
| body_forwarded (response : ModelsResponse).  (* response.body, with response.headers *)

Record HandlerResponse := { h_status : nat; h_body : HandlerBody }.

Definition code_is_invalid_api_key (c : option string) : bool :=
  match c with
  | Some s => String.eqb s "invalid_api_key"
  | None => false
  end.

Section Handler.

(** Modelled from the spec: [OPENAI_API_TYPE] of utils/app/const, and the
    enum [OpenAIModelID] (its entries, in the order of the declaration)
    and the table [OpenAIModels] of types/openai are not among the
    sources. *)
Variable OPENAI_API_TYPE : string.
Variable OpenAIModelID : list (string * string).
Variable OpenAIModels : string -> option OpenAIModel.

(** The models endpoint: the answer to the n-th request of a run of the
    handler, by credential; None when fetch rejects. *)
Variable fetchModels_reply : nat -> string -> option ModelsResponse.

Definition fetchModels (n : nat) (key : string) : M ModelsResponse :=
  fun w =>
    match fetchModels_reply n key with
    | Some response => (Returned response, w)
    | None => (Thrown Error_fetch, w)
    end.

(** [(OPENAI_API_TYPE === "azure") ? model.model : model.id] *)
Definition model_name (u : UpstreamModel) : option string :=
  if String.eqb OPENAI_API_TYPE "azure" then um_model u else Some (um_id u).

Definition is_model_name (u : UpstreamModel) (entry : string * string) : bool :=
  match model_name u with
  | Some n => String.eqb (snd entry) n
  | None => false
  end.

(** The callback of [json.data.map]: the first entry of [OpenAIModelID]
    whose value is the model's name decides; [None] is [undefined]. *)
Definition to_OpenAIModel (u : UpstreamModel) : Try (option OpenAIModel) :=
  match find (is_model_name u) OpenAIModelID with
  | Some entry =>
      match OpenAIModels (snd entry) with
      | Some m => Done (Some {| id := um_id u; name := name m |})
      | None => Raised TypeError
      end
  | None => Done None
  end.

Fixpoint map_to_OpenAIModel (data : list UpstreamModel)
  : Try (list (option OpenAIModel)) :=
  match data with
  | [] => Done []
  | u :: rest =>
      and_then (to_OpenAIModel u) (fun m =>
      and_then (map_to_OpenAIModel rest) (fun ms => Done (m :: ms)))
  end.

(** [.filter(Boolean)] *)
Fixpoint filter_Boolean (ms : list (option OpenAIModel)) : list OpenAIModel :=
  match ms with
  | [] => []
  | Some m :: rest => m :: filter_Boolean rest
  | None :: rest => filter_Boolean rest
  end.

(** [json.data.map(...).filter(Boolean)] *)
Definition models_of (data : list UpstreamModel) : Try (list OpenAIModel) :=
  and_then (map_to_OpenAIModel data) (fun ms => Done (filter_Boolean ms)).

(** The [while] loop of the handler, for the response in hand and the
    n-th request to come; the first argument bounds the number of rounds.
    It gives the last response and whether the loop condition has read
    its body. *)
Fixpoint retry_while_invalid (rounds n : nat) (key : string) (response : ModelsResponse)
  : M (ModelsResponse * bool) :=
  e <- get_env ;;
  if truthy (OPENAI_API_KEY_SERVER e) && (m_status response =? 401)
  then
    match m_error response with
    | error_unreadable => throw SyntaxError
    | error_missing => throw TypeError
    | error_code c =>
        if code_is_invalid_api_key c
        then
          match rounds with
          | 0 => running
          | S rounds' =>
              KeyStore.deleteKey key ;;;
              key <- KeyStore.getKey HIGHEST ;;
              response <- fetchModels n key ;;
              retry_while_invalid rounds' (S n) key response
          end
        else ret (response, true)
    end
  else ret (response, false).

(** Lines 45-75 of the handler: the answer for the last response.  A body
    the loop condition has read cannot be forwarded: [new Response]
    refuses a disturbed stream with a TypeError. *)
Definition respond (last : ModelsResponse * bool) : M HandlerResponse :=
  let response := fst last in
  if m_status response =? 401
  then
    (if snd last then throw TypeError
     else ret {| h_status := 500; h_body := body_forwarded response |})
  else if negb (m_status response =? 200)
  then throw Error_OpenAI_API
  else
    match m_data response with
    | None => throw TypeError
    | Some data =>
        match models_of data with
        | Done models => ret {| h_status := 200; h_body := body_models models |}
        | Raised e => throw e
        end
    end.

(** The [try] block of the handler.  [req] is [await req.json()]: None
    when the body is not JSON or is null, and the [key] member (None when
    undefined) otherwise. *)
Definition handler_try (rounds : nat) (req : option (option string))
  : M HandlerResponse :=
  match req with
  | None => throw SyntaxError
  | Some k =>
      key <- (if negb (truthy k) then KeyStore.getKey HIGHEST else ret (text_of k)) ;;
      response <- fetchModels 0 key ;;
      last <- retry_while_invalid rounds 1 key response ;;
      respond last
  end.

(** [handler]: whatever the [try] block throws becomes the response
    "Error" with status 500. *)
Definition handler (rounds : nat) (req : option (option string)) : M HandlerResponse :=
  fun w =>
    match handler_try rounds req w with
    | (Thrown _, w') => (Returned {| h_status := 500; h_body := body_Error |}, w')
    | finished => finished
    end.

End Handler.

(** ** Further sample worlds and records *)

Module Fixture.

(** A key server that lists one Standard credential. *)
Definition standard_only : World :=
  Sample.start Sample.server_env
    (Sample.served [ {| src_key := "sk-a"; src_type := "gpt-3" |} ] true "sk-none").

(** A source with a mistyped tier. *)
Definition mistyped : list SourceRecord :=
  [ {| src_key := "sk-a"; src_type := "gpt-3" |};
    {| src_key := "sk-c"; src_type := "GPT-3" |} ].

(** No key server, and an authorization without a server. *)
Definition no_auth_env : ProcessEnv :=
  {| OPENAI_API_KEY_SERVER := Some "keys.internal:8080";
     OPENAI_API_KEY_SERVER_AUTH := None;
     OPENAI_API_KEYS_FILE := None;
     OPENAI_API_KEY := None |}.

(** An override credential that the completion API rejects, behind a key
    server that performs deletions. *)
Definition rejected_override : World :=
  Sample.start Sample.override_env (Sample.served Sample.both_tiers true "sk-own").

Definition server_error : Response :=
  {| status := 500;
     res_json := json_error {| message := "The server had an error";
                               type_ := "server_error"; param := "";
                               code := "internal_error" |};
     res_body := [] |}.

(** The completion API answers every request with a server error. *)
Definition failing_upstream : World :=
  Sample.start Sample.file_env
    {| readLocalKeysFile_reply := fun _ _ => Some Sample.both_tiers;
       getKeys_reply := fun _ _ _ => None;
       deleteKey_reply := fun _ _ _ _ => None;
       deleteKey_null := fun _ _ _ _ => false;
       Math_random := fun _ => 0%Q;
       completions_reply := fun _ _ _ => Some server_error |}.

(** A 502 answer whose body is JSON with a [value] member and no [error]. *)
Definition proxy_error : Response :=
  {| status := 502; res_json := json_value_without_error; res_body := [] |}.

(** The completion API answers every request with that body. *)
Definition proxy_upstream : World :=
  Sample.start Sample.file_env
    {| readLocalKeysFile_reply := fun _ _ => Some Sample.both_tiers;
       getKeys_reply := fun _ _ _ => None;
       deleteKey_reply := fun _ _ _ _ => None;
       deleteKey_null := fun _ _ _ _ => false;
       Math_random := fun _ => 0%Q;
       completions_reply := fun _ _ _ => Some proxy_error |}.

(** The three records of the example followed by the record "[DONE]",
    which is not JSON. *)
Definition Hel_lo_DONE : ReadableStream :=
  {| upstream := res_body Sample.ok_response ++ [ParsedEvent Sample.record_DONE];
     controller := new_Controller |}.

Definition record_no_choices : string := Sample.dq "{'choices':[]}".
Definition record_role : string :=
  Sample.dq "{'choices':[{'delta':{'role':'assistant'}}]}".
Definition record_null : string :=
  Sample.dq "{'choices':[{'delta':{'content':null}}]}".

(** [JSON.parse] on the records of [Sample] and on the three above. *)
Definition JSON_parse (data : string) : option json :=
  if String.eqb data record_no_choices
  then Some (JObject [("choices", JArray [])])
  else if String.eqb data record_role
  then Some (JObject [("choices",
                       JArray [JObject [("delta",
                                         JObject [("role", JString "assistant")])]])])
  else if String.eqb data record_null
  then Some (JObject [("choices",
                       JArray [JObject [("delta", JObject [("content", JNull)])]])])
  else Sample.JSON_parse data.

(** A stream on which [controller.close()] was called with one chunk
    still queued. *)
Definition closing : ReadableStream :=
  {| upstream := [ParsedEvent Sample.record_lo; ParsedEvent Sample.record_DONE];
     controller := {| state := readable; closeRequested := true;
                      queue := [list_byte_of_string "Hel"]; delivered := [] |} |}.

Definition OpenAIModelID : list (string * string) :=
  [("GPT_3_5", "gpt-3.5-turbo"); ("GPT_4", "gpt-4")].

Definition OpenAIModels (value : string) : option OpenAIModel :=
  if String.eqb value "gpt-3.5-turbo"
  then Some {| id := "gpt-3.5-turbo"; name := "GPT-3.5" |}
  else if String.eqb value "gpt-4"
  then Some {| id := "gpt-4"; name := "GPT-4" |}
  else None.

Definition listing : list UpstreamModel :=
  [ {| um_id := "gpt-4"; um_model := None |};
    {| um_id := "whisper-1"; um_model := None |};
    {| um_id := "gpt-3.5-turbo"; um_model := None |} ].

Definition unauthorized : ModelsResponse :=
  {| m_status := 401; m_error := error_code (Some "invalid_api_key"); m_data := None |}.

Definition listed : ModelsResponse :=
  {| m_status := 200; m_error := error_missing; m_data := Some listing |}.

(** The models endpoint rejects the credential sk-a and lists for any
    other. *)
Definition models_endpoint (n : nat) (key : string) : option ModelsResponse :=
  Some (if String.eqb key "sk-a" then unauthorized else listed).

(** The models endpoint answers the first request of a run with that
    rejection and no request after it. *)
Definition models_endpoint_once (n : nat) (key : string) : option ModelsResponse :=
  if n =? 0 then Some unauthorized else None.

End Fixture.

(** * Properties *)

(** ** Arithmetic of the draw *)

Lemma floor_times_lt (r : Q) (n : nat) :
  (0 <= r)%Q -> (r < 1)%Q -> 0 < n -> KeyStore.floor_times r n < n.
Proof.
  intros Hlo Hhi Hn. unfold KeyStore.floor_times.
  set (x := (r * inject_Z (Z.of_nat n))%Q).
  assert (Hpos : (0 < inject_Z (Z.of_nat n))%Q).
  { change 0%Q with (inject_Z 0). rewrite <- Zlt_Qlt. lia. }
  assert (Hx0 : (0 <= x)%Q).
  { unfold x. apply Qmult_le_0_compat; [assumption | apply Qlt_le_weak; assumption]. }
  assert (Hx1 : (x < inject_Z (Z.of_nat n))%Q).
  { unfold x.
    setoid_replace (inject_Z (Z.of_nat n)) with (1 * inject_Z (Z.of_nat n))%Q at 2
      by (symmetry; apply Qmult_1_l).
    apply Qmult_lt_compat_r; assumption. }
  assert (Hf0 : (0 <= Qfloor x)%Z).
  { change 0%Z with (Qfloor 0). apply Qfloor_resp_le. exact Hx0. }
  assert (Hf1 : (Qfloor x < Z.of_nat n)%Z).
  { rewrite Zlt_Qlt. eapply Qle_lt_trans; [apply Qfloor_le | exact Hx1]. }
  lia.
Qed.

Lemma drawn_key_in (r : Q) (keys : list string) :
  (0 <= r)%Q -> (r < 1)%Q -> keys <> [] ->
  In (nth (KeyStore.floor_times r (length keys)) keys "") keys.
Proof.
  intros Hlo Hhi Hne. apply nth_In. apply floor_times_lt; try assumption.
  destruct keys; [congruence | simpl; lia].
Qed.

(** ** Loading *)

Lemma push_all_gpt3 (records : list SourceRecord) (s : KeyStoreFields) :
  gpt3keys (fold_left KeyStore.push_key (map KeyStore.to_Key records) s)
  = (gpt3keys s ++ standard_keys records)%list.
Proof.
  revert s. induction records as [|r records IH]; intros s; simpl.
  - now rewrite app_nil_r.
  - rewrite IH. unfold KeyStore.push_key, KeyStore.to_Key, standard_keys, is_gpt3. simpl.
    destruct (String.eqb (src_type r) "gpt-3"); simpl.
    + now rewrite <- app_assoc.
    + reflexivity.
Qed.

Lemma push_all_gpt4 (records : list SourceRecord) (s : KeyStoreFields) :
  gpt4keys (fold_left KeyStore.push_key (map KeyStore.to_Key records) s)
  = (gpt4keys s ++ premium_keys records)%list.
Proof.
  revert s. induction records as [|r records IH]; intros s; simpl.
  - now rewrite app_nil_r.
  - rewrite IH. unfold KeyStore.push_key, KeyStore.to_Key, premium_keys, is_gpt3. simpl.
    destruct (String.eqb (src_type r) "gpt-3"); simpl.
    + reflexivity.
    + now rewrite <- app_assoc.
Qed.

Lemma push_all_initialized (keys : list Key) (s : KeyStoreFields) :
  initialized (fold_left KeyStore.push_key keys s) = initialized s.
Proof.
  revert s. induction keys as [|k keys IH]; intros s; simpl; [reflexivity|].
  rewrite IH. unfold KeyStore.push_key. now destruct (KeyType_eqb (type k) GPT4).
Qed.

Lemma load_when_initialized (w : World) :
  initialized (statics w) = true ->
  KeyStore.load_if_uninitialized w = (Returned tt, w).
Proof.
  intros H. unfold KeyStore.load_if_uninitialized, bind, get_statics.
  now rewrite H.
Qed.

Lemma load_when_uninitialized (w : World) :
  initialized (statics w) = false ->
  KeyStore.load_if_uninitialized w =
    match source_now w with
    | Some records => (Returned tt, loaded records w)
    | None => (Thrown Error_loadKeys, load_failed w)
    end.
Proof.
  intros H.
  unfold KeyStore.load_if_uninitialized, KeyStore.loadKeys, KeyStore.forEach_push,
    source_now, bind, get_statics, set_statics, ret, KeyStore.read_source.
  rewrite H. simpl.
  destruct (if truthy (OPENAI_API_KEY_SERVER (env w)) &&
               truthy (OPENAI_API_KEY_SERVER_AUTH (env w))
            then _ else _); reflexivity.
Qed.

(** ** Drawing *)

Lemma select_effective_set (t : Tier) (s : KeyStoreFields) :
  KeyStore.select (tier_argument t) s = effective_set t s.
Proof.
  destruct t; unfold KeyStore.select, effective_set; simpl.
  - now destruct (gpt4keys s).
  - now destruct (gpt3keys s).
Qed.

Lemma pick_empty (t : KeyType) (w : World) :
  KeyStore.select t (statics w) = [] ->
  KeyStore.pick t w = (Thrown (Error_NoKeysAvailable t), w).
Proof.
  intros H. unfold KeyStore.pick, bind, get_statics, throw. now rewrite H.
Qed.

Lemma pick_nonempty (t : KeyType) (w : World) :
  KeyStore.select t (statics w) <> [] ->
  KeyStore.pick t w =
    (Returned (nth (KeyStore.floor_times (Math_random (outside w) (draws w))
                      (length (KeyStore.select t (statics w))))
                   (KeyStore.select t (statics w)) ""),
     drawn w).
Proof.
  intros H. unfold KeyStore.pick, bind, get_statics, set_statics, KeyStore.random, ret.
  destruct (KeyStore.select t (statics w)) as [|k keys] eqn:E; [congruence|].
  reflexivity.
Qed.

Lemma getKey_from_pool (t : KeyType) (w : World) :
  no_override w ->
  KeyStore.getKey t w =
    match KeyStore.load_if_uninitialized w with
    | (Returned _, w1) => KeyStore.pick t w1
    | (Thrown e, w1) => (Thrown e, w1)
    | (Running, w1) => (Running, w1)
    end.
Proof.
  intros H. unfold KeyStore.getKey, bind at 1. unfold get_env.
  rewrite H. reflexivity.
Qed.

Lemma drawn_initialized (w : World) :
  initialized (statics w) = true -> statics (drawn w) = statics w.
Proof.
  intros H. unfold drawn. simpl. destruct (statics w) as [i g3 g4].
  simpl in *. now subst.
Qed.

(** ** The override credential *)

(** C9: with a static override credential configured, [getKey] returns it
    for every tier and every pool state and gives back the world as it
    was: no load from the source, both key sets and the flag unchanged. *)
Theorem getKey_override_bypasses_pool (t : KeyType) (w : World) (k : string) :
  OPENAI_API_KEY (env w) = Some k -> k <> "" ->
  KeyStore.getKey t w = (Returned k, w) /\
  loads (snd (KeyStore.getKey t w)) = loads w /\
  statics (snd (KeyStore.getKey t w)) = statics w.
Proof.
  intros Hk Hne.
  assert (E : KeyStore.getKey t w = (Returned k, w)).
  { unfold KeyStore.getKey, bind, get_env, ret. rewrite Hk. simpl.
    destruct (String.eqb_spec k ""); [contradiction | reflexivity]. }
  rewrite E. auto.
Qed.

Lemma getKey_override_bypasses_pool_witness :
  KeyStore.getKey GPT3 (Sample.start Sample.override_env Sample.silent)
  = (Returned "sk-own", Sample.start Sample.override_env Sample.silent).
Proof.
  apply (getKey_override_bypasses_pool GPT3
           (Sample.start Sample.override_env Sample.silent) "sk-own").
  - reflexivity.
  - discriminate.
Defined.

(** ** Eviction *)

(** C1, as the code has it: for every call of [deleteKey] with the key
    server configured, an answer to the deletion request empties both key
    sets and resets the flag whatever it says: a reported value, success
    or failure, is returned, and on the JSON null [deleteKey] throws after
    the reset.  The pool is left as it was when [deleteKey] throws because
    the key server is not configured, or because the request fails or its
    body is not JSON. *)
Theorem deleteKey_clears_on_every_answer (k : string) (w : World) :
  statics (evicted w) = empty_pool /\
  (truthy (OPENAI_API_KEY_SERVER (env w)) = true ->
   truthy (OPENAI_API_KEY_SERVER_AUTH (env w)) = true ->
   (forall success,
      deleteKey_reply (outside w) (deletions w)
        (text_of (OPENAI_API_KEY_SERVER (env w)))
        (text_of (OPENAI_API_KEY_SERVER_AUTH (env w))) k = Some success ->
      KeyStore.deleteKey k w = (Returned success, evicted w)) /\
   (deleteKey_reply (outside w) (deletions w)
      (text_of (OPENAI_API_KEY_SERVER (env w)))
      (text_of (OPENAI_API_KEY_SERVER_AUTH (env w))) k = None ->
    (deleteKey_null (outside w) (deletions w)
       (text_of (OPENAI_API_KEY_SERVER (env w)))
       (text_of (OPENAI_API_KEY_SERVER_AUTH (env w))) k = true ->
     KeyStore.deleteKey k w = (Thrown TypeError, evicted w)) /\
    (deleteKey_null (outside w) (deletions w)
       (text_of (OPENAI_API_KEY_SERVER (env w)))
       (text_of (OPENAI_API_KEY_SERVER_AUTH (env w))) k = false ->
     fst (KeyStore.deleteKey k w) = Thrown Error_fetch /\
     statics (snd (KeyStore.deleteKey k w)) = statics w))) /\
  (truthy (OPENAI_API_KEY_SERVER (env w)) &&
   truthy (OPENAI_API_KEY_SERVER_AUTH (env w)) = false ->
   KeyStore.deleteKey k w = (Thrown Error_KeyServerNotConfigured, w)).
Proof.
  split; [reflexivity|].
  unfold KeyStore.deleteKey, KeyStore.post_deleteKey, bind, get_env, set_statics,
    throw, ret, evicted, empty_pool.
  split.
  - intros Hs Ha. rewrite Hs, Ha. cbn [negb orb]. split.
    + intros success Hreply. rewrite Hreply. reflexivity.
    + intros Hreply. rewrite Hreply. split; intros Hnull; rewrite Hnull.
      * reflexivity.
      * split; reflexivity.
  - intros Hnot.
    destruct (truthy (OPENAI_API_KEY_SERVER (env w)));
      destruct (truthy (OPENAI_API_KEY_SERVER_AUTH (env w)));
      try discriminate; reflexivity.
Qed.

Lemma deleteKey_clears_on_every_answer_witness :
  KeyStore.deleteKey "sk-a" Sample.refusing_server
  = (Returned false, evicted Sample.refusing_server) /\
  KeyStore.deleteKey "sk-a" Sample.null_server
  = (Thrown TypeError, evicted Sample.null_server).
Proof.
  split.
  - apply (deleteKey_clears_on_every_answer "sk-a" Sample.refusing_server);
      reflexivity.
  - apply (deleteKey_clears_on_every_answer "sk-a" Sample.null_server);
      reflexivity.
Defined.

(** C1, refuted as stated: the server reports failure, [deleteKey] returns
    false, and the populated pool has been emptied all the same. *)
Lemma deleteKey_failure_still_clears :
  fst (KeyStore.deleteKey "sk-a" Sample.refusing_server) = Returned false /\
  statics (snd (KeyStore.deleteKey "sk-a" Sample.refusing_server)) = empty_pool /\
  statics (snd (KeyStore.deleteKey "sk-a" Sample.refusing_server))
    <> statics Sample.refusing_server.
Proof. repeat split. discriminate. Qed.

(** ** Selection *)

(** C6: without an override and once the pool is populated, [getKey] for
    the highest-available tier draws from the Premium set when it is not
    empty and from the Standard set otherwise, for the Standard-preferred
    tier from the Standard set when it is not empty and from the Premium
    set otherwise; it throws "No keys available" exactly when that
    effective set is empty. *)
Theorem getKey_draws_from_effective_set (t : Tier) (w w1 : World) :
  no_override w ->
  Math_random_in_range w ->
  KeyStore.load_if_uninitialized w = (Returned tt, w1) ->
  (effective_set t (statics w1) <> [] ->
   exists k w2,
     KeyStore.getKey (tier_argument t) w = (Returned k, w2) /\
     In k (effective_set t (statics w1))) /\
  (effective_set t (statics w1) = [] <->
   exists w2,
     KeyStore.getKey (tier_argument t) w
     = (Thrown (Error_NoKeysAvailable (tier_argument t)), w2)).
Proof.
  intros Hno Hrand Hload.
  rewrite (getKey_from_pool _ _ Hno), Hload.
  assert (Hout : outside w1 = outside w).
  { destruct (initialized (statics w)) eqn:Hi.
    - rewrite (load_when_initialized _ Hi) in Hload. now inversion Hload.
    - rewrite (load_when_uninitialized _ Hi) in Hload.
      destruct (source_now w); inversion Hload; reflexivity. }
  destruct (list_eq_dec string_dec (effective_set t (statics w1)) []) as [He|He].
  - split; [congruence|]. split; [intros _|auto].
    exists w1. apply pick_empty. now rewrite select_effective_set.
  - split.
    + intros _. rewrite pick_nonempty by now rewrite select_effective_set.
      rewrite select_effective_set. eexists. eexists. split; [reflexivity|].
      destruct (Hrand (draws w1)) as [Hlo Hhi]. rewrite <- Hout in Hlo, Hhi.
      now apply drawn_key_in.
    + split; [congruence|]. intros [w2 Hthrow].
      rewrite pick_nonempty in Hthrow by now rewrite select_effective_set.
      discriminate.
Qed.

Lemma sample_random_in_range (e : ProcessEnv) (records : list SourceRecord)
    (success : bool) (revoked : string) :
  Math_random_in_range (Sample.start e (Sample.served records success revoked)).
Proof. intros n. split; simpl; [discriminate | reflexivity]. Defined.

Lemma getKey_draws_from_effective_set_witness :
  exists k w2,
    KeyStore.getKey HIGHEST
      (Sample.start Sample.server_env (Sample.served Sample.both_tiers true "sk-a"))
    = (Returned k, w2) /\
    In k ["sk-b"].
Proof.
  apply (getKey_draws_from_effective_set highest_available
           (Sample.start Sample.server_env (Sample.served Sample.both_tiers true "sk-a"))
           (loaded Sample.both_tiers
              (Sample.start Sample.server_env
                 (Sample.served Sample.both_tiers true "sk-a")))).
  - reflexivity.
  - apply sample_random_in_range.
  - reflexivity.
  - discriminate.
Defined.

(** ** Loading once *)

Lemma getKey_keeps_env (t : KeyType) (w : World) :
  env (snd (KeyStore.getKey t w)) = env w /\
  outside (snd (KeyStore.getKey t w)) = outside w.
Proof.
  destruct (truthy (OPENAI_API_KEY (env w))) eqn:Ht.
  { unfold KeyStore.getKey, bind, get_env, ret. rewrite Ht. split; reflexivity. }
  rewrite (getKey_from_pool t w Ht).
  assert (Hl : env (snd (KeyStore.load_if_uninitialized w)) = env w /\
               outside (snd (KeyStore.load_if_uninitialized w)) = outside w).
  { destruct (initialized (statics w)) eqn:Hi.
    - rewrite (load_when_initialized _ Hi). split; reflexivity.
    - rewrite (load_when_uninitialized _ Hi).
      destruct (source_now w); split; reflexivity. }
  destruct (KeyStore.load_if_uninitialized w) as [[[]|e|] w1]; simpl in *; try exact Hl.
  destruct Hl as [He Ho].
  destruct (list_eq_dec string_dec (KeyStore.select t (statics w1)) []) as [Hs|Hs].
  - rewrite (pick_empty _ _ Hs). simpl. auto.
  - rewrite (pick_nonempty _ _ Hs). simpl. auto.
Qed.

Lemma getKey_when_initialized (t : KeyType) (w : World) :
  no_override w ->
  initialized (statics w) = true ->
  loads (snd (KeyStore.getKey t w)) = loads w /\
  statics (snd (KeyStore.getKey t w)) = statics w.
Proof.
  intros Hno Hi.
  rewrite (getKey_from_pool _ _ Hno), (load_when_initialized _ Hi).
  destruct (list_eq_dec string_dec (KeyStore.select t (statics w)) []) as [Hs|Hs].
  - rewrite (pick_empty _ _ Hs). simpl. auto.
  - rewrite (pick_nonempty _ _ Hs). simpl. split; [reflexivity|].
    now apply drawn_initialized.
Qed.

Lemma acquire_sequence_when_initialized (tiers : list KeyType) (w : World) :
  no_override w ->
  initialized (statics w) = true ->
  loads (snd (acquire_sequence tiers w)) = loads w /\
  statics (snd (acquire_sequence tiers w)) = statics w.
Proof.
  revert w. induction tiers as [|t tiers IH]; intros w Hno Hi; simpl; [auto|].
  destruct (getKey_when_initialized t w Hno Hi) as [Hl Hs].
  destruct (getKey_keeps_env t w) as [He _].
  destruct (KeyStore.getKey t w) as [r w1]. simpl in *.
  assert (Hno1 : no_override w1) by (unfold no_override; now rewrite He).
  assert (Hi1 : initialized (statics w1) = true) by now rewrite Hs.
  destruct (IH w1 Hno1 Hi1) as [Hl2 Hs2].
  destruct (acquire_sequence tiers w1) as [rs w2]. simpl in *.
  split; congruence.
Qed.

Lemma getKey_when_uninitialized (t : KeyType) (w : World) :
  no_override w ->
  initialized (statics w) = false ->
  loads (snd (KeyStore.getKey t w)) = S (loads w) /\
  initialized (statics (snd (KeyStore.getKey t w))) = returned (fst (KeyStore.getKey t w)) /\
  forall records,
    source_now w = Some records ->
    gpt3keys (statics (snd (KeyStore.getKey t w)))
    = (gpt3keys (statics w) ++ standard_keys records)%list /\
    gpt4keys (statics (snd (KeyStore.getKey t w)))
    = (gpt4keys (statics w) ++ premium_keys records)%list.
Proof.
  intros Hno Hi.
  rewrite (getKey_from_pool _ _ Hno), (load_when_uninitialized _ Hi).
  destruct (source_now w) as [records|].
  - set (w0 := loaded records w).
    assert (H3 : gpt3keys (statics w0) = (gpt3keys (statics w) ++ standard_keys records)%list)
      by (unfold w0, loaded; simpl; now rewrite push_all_gpt3).
    assert (H4 : gpt4keys (statics w0) = (gpt4keys (statics w) ++ premium_keys records)%list)
      by (unfold w0, loaded; simpl; now rewrite push_all_gpt4).
    assert (Hi0 : initialized (statics w0) = false)
      by (unfold w0, loaded; simpl; now rewrite push_all_initialized).
    destruct (list_eq_dec string_dec (KeyStore.select t (statics w0)) []) as [Hs|Hs].
    + rewrite (pick_empty _ _ Hs). cbn [fst snd returned].
      split; [reflexivity|]. split; [exact Hi0|].
      intros r Hr. inversion Hr; subst. split; assumption.
    + rewrite (pick_nonempty _ _ Hs). cbn [fst snd returned].
      split; [reflexivity|]. split; [reflexivity|].
      intros r Hr. inversion Hr; subst. split; assumption.
  - cbn [fst snd returned load_failed loads statics].
    split; [reflexivity|]. split; [exact Hi|].
    intros r Hr. discriminate Hr.
Qed.

Lemma acquire_sequence_until_returned (tiers : list KeyType) :
  forall w,
    no_override w ->
    initialized (statics w) = false ->
    loads (snd (acquire_sequence tiers w))
    = loads w + acquires_until_returned (fst (acquire_sequence tiers w)) /\
    initialized (statics (snd (acquire_sequence tiers w)))
    = existsb returned (fst (acquire_sequence tiers w)).
Proof.
  induction tiers as [|t tiers IH]; intros w Hno Hi.
  - simpl. split; [lia | exact Hi].
  - cbn [acquire_sequence].
    destruct (getKey_when_uninitialized t w Hno Hi) as [Hl [Hflag _]].
    destruct (getKey_keeps_env t w) as [He _].
    destruct (KeyStore.getKey t w) as [r w1]. cbn [fst snd] in Hl, Hflag, He.
    assert (Hno1 : no_override w1) by (unfold no_override; now rewrite He).
    destruct r as [k|e|]; cbn [returned] in Hflag.
    + destruct (acquire_sequence_when_initialized tiers w1 Hno1 Hflag) as [Hl2 Hs2].
      destruct (acquire_sequence tiers w1) as [rs w2]. cbn [fst snd] in *.
      cbn [acquires_until_returned existsb returned orb].
      split; [lia | now rewrite Hs2].
    + destruct (IH w1 Hno1 Hflag) as [Hl2 Hf2].
      destruct (acquire_sequence tiers w1) as [rs w2]. cbn [fst snd] in *.
      cbn [acquires_until_returned existsb returned orb].
      split; [lia | exact Hf2].
    + destruct (IH w1 Hno1 Hflag) as [Hl2 Hf2].
      destruct (acquire_sequence tiers w1) as [rs w2]. cbn [fst snd] in *.
      cbn [acquires_until_returned existsb returned orb].
      split; [lia | exact Hf2].
Qed.

(** C7, as the code has it: without an override and with no eviction in
    between, an acquire loads the source exactly when the flag is not set
    at its start, and then once, filing the records it loads behind those
    already in the set of their tier; it sets the flag exactly when it
    returns a credential, and an acquire that starts with the flag set
    leaves the pool as it is.  So in every sequence of acquires from the
    empty pool each acquire up to and including the first that returns a
    credential makes one load and none after it makes any, and the flag is
    set at the end exactly when some acquire returned.  When the first
    acquire returns, the source has been loaded once in the whole
    sequence and the two sets are the Standard and the other records of
    that load. *)
Theorem getKey_loads_until_it_returns :
  (forall (t : KeyType) (w : World),
     no_override w ->
     initialized (statics w) = true ->
     loads (snd (KeyStore.getKey t w)) = loads w /\
     statics (snd (KeyStore.getKey t w)) = statics w) /\
  (forall (t : KeyType) (w : World),
     no_override w ->
     initialized (statics w) = false ->
     loads (snd (KeyStore.getKey t w)) = S (loads w) /\
     initialized (statics (snd (KeyStore.getKey t w)))
     = returned (fst (KeyStore.getKey t w)) /\
     forall records,
       source_now w = Some records ->
       gpt3keys (statics (snd (KeyStore.getKey t w)))
       = (gpt3keys (statics w) ++ standard_keys records)%list /\
       gpt4keys (statics (snd (KeyStore.getKey t w)))
       = (gpt4keys (statics w) ++ premium_keys records)%list) /\
  (forall (tiers : list KeyType) (w : World),
     no_override w ->
     statics w = empty_pool ->
     loads (snd (acquire_sequence tiers w))
     = loads w + acquires_until_returned (fst (acquire_sequence tiers w)) /\
     initialized (statics (snd (acquire_sequence tiers w)))
     = existsb returned (fst (acquire_sequence tiers w)) /\
     forall t later k w1,
       tiers = t :: later ->
       KeyStore.getKey t w = (Returned k, w1) ->
       exists records,
         source_now w = Some records /\
         gpt3keys (statics w1) = standard_keys records /\
         gpt4keys (statics w1) = premium_keys records /\
         loads (snd (acquire_sequence tiers w)) = S (loads w) /\
         statics (snd (acquire_sequence tiers w)) = statics w1).
Proof.
  split; [exact getKey_when_initialized|].
  split; [exact getKey_when_uninitialized|].
  intros tiers w Hno Hempty.
  assert (Hi : initialized (statics w) = false) by now rewrite Hempty.
  destruct (acquire_sequence_until_returned tiers w Hno Hi) as [Hloads Hflag].
  split; [exact Hloads|]. split; [exact Hflag|].
  intros t later k w1 -> Hget.
  destruct (getKey_when_uninitialized t w Hno Hi) as [Hl [Hset Harrays]].
  destruct (getKey_keeps_env t w) as [He _].
  assert (Hsrc : exists records, source_now w = Some records).
  { revert Hget. rewrite (getKey_from_pool _ _ Hno), (load_when_uninitialized _ Hi).
    destruct (source_now w) as [records|]; [eauto | discriminate]. }
  destruct Hsrc as [records Hsrc]. exists records.
  destruct (Harrays records Hsrc) as [H3 H4].
  cbn [acquire_sequence]. rewrite Hget in *. cbn [fst snd returned] in *.
  rewrite Hempty in H3, H4. cbn [empty_pool gpt3keys gpt4keys app] in H3, H4.
  assert (Hno1 : no_override w1) by (unfold no_override; now rewrite He).
  destruct (acquire_sequence_when_initialized later w1 Hno1 Hset) as [Hl2 Hs2].
  destruct (acquire_sequence later w1) as [rs w2]. cbn [fst snd] in *.
  repeat split; try assumption. congruence.
Qed.

Lemma getKey_loads_until_it_returns_witness :
  loads (snd (acquire_sequence [GPT4; GPT3; HIGHEST] Fixture.standard_only)) = 2 /\
  initialized (statics (snd (acquire_sequence [GPT4; GPT3; HIGHEST] Fixture.standard_only)))
  = true.
Proof.
  destruct getKey_loads_until_it_returns as [_ [_ Hsequence]].
  destruct (Hsequence [GPT4; GPT3; HIGHEST] Fixture.standard_only eq_refl eq_refl)
    as [Hloads [Hflag _]].
  rewrite Hloads, Hflag. vm_compute. split; reflexivity.
Defined.

(** C7, refuted as stated: on a source that lists no credential, two
    [getKey] calls in a row load the source twice and the flag is never
    set. *)
Lemma two_getKey_two_loads :
  no_override Sample.empty_file /\
  fst (acquire_sequence [HIGHEST; HIGHEST] Sample.empty_file)
    = [Thrown (Error_NoKeysAvailable HIGHEST); Thrown (Error_NoKeysAvailable HIGHEST)] /\
  loads (snd (acquire_sequence [HIGHEST; HIGHEST] Sample.empty_file)) = 2 /\
  initialized (statics (snd (acquire_sequence [HIGHEST; HIGHEST] Sample.empty_file)))
    = false.
Proof. vm_compute. repeat split. Qed.

(** ** Reload after an eviction *)

Lemma deleteKey_returned (k : string) (w w1 : World) (success : bool) :
  KeyStore.deleteKey k w = (Returned success, w1) ->
  truthy (OPENAI_API_KEY_SERVER (env w)) = true /\
  truthy (OPENAI_API_KEY_SERVER_AUTH (env w)) = true /\
  w1 = evicted w.
Proof.
  unfold KeyStore.deleteKey, KeyStore.post_deleteKey, bind, get_env, set_statics,
    throw, ret.
  destruct (truthy (OPENAI_API_KEY_SERVER (env w)));
    destruct (truthy (OPENAI_API_KEY_SERVER_AUTH (env w))); simpl;
    try discriminate.
  destruct (deleteKey_reply _ _ _ _ _);
    [|destruct (deleteKey_null _ _ _ _ _)]; intros H; inversion H. auto.
Qed.

Lemma select_from_sets (t : KeyType) (s : KeyStoreFields) (k : string) :
  In k (KeyStore.select t s) -> In k (gpt3keys s) \/ In k (gpt4keys s).
Proof.
  unfold KeyStore.select.
  destruct (KeyType_eqb t HIGHEST).
  - destruct (0 <? length (gpt4keys s)); auto.
  - destruct (KeyType_eqb t GPT3 && (0 <? length (gpt3keys s))); auto.
Qed.

Lemma standard_keys_listed (records : list SourceRecord) (k : string) :
  In k (standard_keys records) -> In k (map src_key records).
Proof.
  unfold standard_keys. rewrite !in_map_iff.
  intros [r [Hk Hr]]. apply filter_In in Hr. exists r. tauto.
Qed.

Lemma premium_keys_listed (records : list SourceRecord) (k : string) :
  In k (premium_keys records) -> In k (map src_key records).
Proof.
  unfold premium_keys. rewrite !in_map_iff.
  intros [r [Hk Hr]]. apply filter_In in Hr. exists r. tauto.
Qed.

(** C8, as the code has it: without an override, after [deleteKey c] has
    returned true and with a key server that no longer lists [c], the next
    [getKey] makes exactly one load, asks the key server for it, and
    returns a credential other than [c] if it returns one. *)
Theorem getKey_after_deleteKey_reloads (c : string) (t : KeyType) (w w1 : World) :
  no_override w ->
  Math_random_in_range w ->
  KeyStore.deleteKey c w = (Returned true, w1) ->
  (forall records, source_now w1 = Some records -> ~ In c (map src_key records)) ->
  source_now w1
    = getKeys_reply (outside w1) (loads w1)
        (text_of (OPENAI_API_KEY_SERVER (env w1)))
        (text_of (OPENAI_API_KEY_SERVER_AUTH (env w1))) /\
  loads (snd (KeyStore.getKey t w1)) = S (loads w1) /\
  (forall k, fst (KeyStore.getKey t w1) = Returned k -> k <> c).
Proof.
  intros Hno Hrand Hdel Hgone.
  destruct (deleteKey_returned _ _ _ _ Hdel) as [Hs [Ha ->]].
  split.
  { unfold source_now, KeyStore.read_source. simpl. rewrite Hs, Ha. simpl.
    now destruct (getKeys_reply _ _ _ _). }
  assert (Hno1 : no_override (evicted w)) by exact Hno.
  rewrite (getKey_from_pool _ _ Hno1).
  rewrite load_when_uninitialized by reflexivity.
  destruct (source_now (evicted w)) as [records|] eqn:Hsrc; [|split; [reflexivity | discriminate]].
  specialize (Hgone records eq_refl).
  set (w0 := loaded records (evicted w)).
  destruct (list_eq_dec string_dec (KeyStore.select t (statics w0)) []) as [He|He].
  - rewrite (pick_empty _ _ He). split; [reflexivity | discriminate].
  - rewrite (pick_nonempty _ _ He). split; [reflexivity|].
    simpl. intros k Hk. injection Hk as <-.
    intros Heq. apply Hgone. rewrite <- Heq.
    destruct (Hrand (draws w)) as [Hlo Hhi].
    pose proof (drawn_key_in _ _ Hlo Hhi He) as Hin.
    apply select_from_sets in Hin. unfold w0, loaded in Hin. simpl in Hin.
    rewrite push_all_gpt3, push_all_gpt4 in Hin. simpl in Hin.
    destruct Hin as [Hin|Hin].
    + now apply standard_keys_listed.
    + now apply premium_keys_listed.
Qed.

Lemma getKey_after_deleteKey_reloads_witness :
  loads (snd (KeyStore.getKey HIGHEST
                (evicted (Sample.start Sample.server_env
                            (Sample.served [ {| src_key := "sk-b"; src_type := "gpt-4" |} ]
                               true "sk-a"))))) = 1 /\
  (forall k,
     fst (KeyStore.getKey HIGHEST
            (evicted (Sample.start Sample.server_env
                        (Sample.served [ {| src_key := "sk-b"; src_type := "gpt-4" |} ]
                           true "sk-a")))) = Returned k ->
     k <> "sk-a").
Proof.
  apply (getKey_after_deleteKey_reloads "sk-a" HIGHEST
           (Sample.start Sample.server_env
              (Sample.served [ {| src_key := "sk-b"; src_type := "gpt-4" |} ] true "sk-a"))).
  - reflexivity.
  - apply sample_random_in_range.
  - reflexivity.
  - intros records H. vm_compute in H. inversion H. simpl.
    intros [E|[]]. discriminate E.
Defined.

(** C8, refuted as stated: with an override credential configured,
    [deleteKey] of that credential returns true, and the next [getKey]
    makes no load and returns the very same credential. *)
Lemma getKey_after_deleteKey_gives_override :
  fst (KeyStore.deleteKey "sk-own" Sample.overridden) = Returned true /\
  fst (KeyStore.getKey HIGHEST (snd (KeyStore.deleteKey "sk-own" Sample.overridden)))
    = Returned "sk-own" /\
  loads (snd (KeyStore.getKey HIGHEST (snd (KeyStore.deleteKey "sk-own" Sample.overridden))))
    = loads (snd (KeyStore.deleteKey "sk-own" Sample.overridden)).
Proof. vm_compute. repeat split. Qed.

(** ** The relay: one round of eviction and retry *)

Lemma getKey_throws (t : KeyType) (w w1 : World) (e : Exn) :
  KeyStore.getKey t w = (Thrown e, w1) ->
  e = Error_NoKeysAvailable t \/ e = Error_loadKeys.
Proof.
  destruct (truthy (OPENAI_API_KEY (env w))) eqn:Ht.
  { unfold KeyStore.getKey, bind, get_env, ret. rewrite Ht. discriminate. }
  rewrite (getKey_from_pool t w Ht).
  destruct (initialized (statics w)) eqn:Hi.
  - rewrite (load_when_initialized _ Hi).
    destruct (list_eq_dec string_dec (KeyStore.select t (statics w)) []) as [Hs|Hs].
    + rewrite (pick_empty _ _ Hs). intros H. inversion H. auto.
    + rewrite (pick_nonempty _ _ Hs). discriminate.
  - rewrite (load_when_uninitialized _ Hi).
    destruct (source_now w) as [records|].
    + destruct (list_eq_dec string_dec
                  (KeyStore.select t (statics (loaded records w))) []) as [Hs|Hs].
      * rewrite (pick_empty _ _ Hs). intros H. inversion H. auto.
      * rewrite (pick_nonempty _ _ Hs). discriminate.
    + intros H. inversion H. auto.
Qed.

Lemma deleteKey_throws (k : string) (w w1 : World) (e : Exn) :
  KeyStore.deleteKey k w = (Thrown e, w1) ->
  (e = Error_KeyServerNotConfigured \/ e = Error_fetch \/ e = TypeError) /\
  requests w1 = requests w /\ loads w1 = loads w.
Proof.
  unfold KeyStore.deleteKey, KeyStore.post_deleteKey, bind, get_env, set_statics,
    throw, ret.
  destruct (negb (truthy (OPENAI_API_KEY_SERVER (env w))) ||
            negb (truthy (OPENAI_API_KEY_SERVER_AUTH (env w)))).
  - intros H. inversion H. auto.
  - destruct (deleteKey_reply _ _ _ _ _);
      [|destruct (deleteKey_null _ _ _ _ _)]; intros H; inversion H; simpl; auto.
Qed.

Lemma send_returned (m : OpenAIModel) (sp : string) (temp : Q) (k : string)
    (ms : list Message) (w w1 : World) (k1 : string) (res : Response) :
  send m sp temp k ms w = (Returned (k1, res), w1) ->
  env w1 = env w /\ outside w1 = outside w /\
  (k <> "" -> k1 = k) /\
  (k = "" -> exists w0,
     KeyStore.getKey (if String.eqb (id m) "gpt-4" then GPT4 else GPT3) w
     = (Returned k1, w0)).
Proof.
  unfold send. simpl.
  destruct (String.eqb_spec k "") as [->|Hk]; simpl.
  - unfold bind at 1.
    pose proof (getKey_keeps_env (if String.eqb (id m) "gpt-4" then GPT4 else GPT3) w)
      as [He Ho].
    destruct (KeyStore.getKey _ w) as [[k0|e|] w0]; try discriminate.
    simpl in He, Ho. unfold bind, fetch_completions, ret.
    destruct (completions_reply _ _ _ _); intros H; inversion H; subst.
    simpl. repeat split; try assumption; [congruence | eauto].
  - unfold bind, ret, fetch_completions.
    destruct (completions_reply _ _ _ _); intros H; inversion H; subst.
    simpl. repeat split; congruence.
Qed.

Lemma send_throws (m : OpenAIModel) (sp : string) (temp : Q) (k : string)
    (ms : list Message) (w w1 : World) (e : Exn) :
  send m sp temp k ms w = (Thrown e, w1) ->
  forall error, e <> OpenAIError error.
Proof.
  unfold send. simpl.
  destruct (String.eqb k ""); simpl.
  - unfold bind at 1.
    destruct (KeyStore.getKey _ w) as [[k0|e0|] w0] eqn:Hg; try discriminate.
    + unfold bind, fetch_completions, ret.
      destruct (completions_reply _ _ _ _); intros H; inversion H; discriminate.
    + intros H. inversion H; subst.
      destruct (getKey_throws _ _ _ _ Hg) as [->| ->]; discriminate.
  - unfold bind, ret, fetch_completions.
    destruct (completions_reply _ _ _ _); intros H; inversion H; discriminate.
Qed.

(** What [OpenAIStream] does after a response that reports an invalid
    credential. *)
Lemma OpenAIStream_after_invalid_credential (depth : nat) (m : OpenAIModel)
    (sp : string) (temp : Q) (k : string) (ms : list Message)
    (w w1 : World) (k1 : string) (res : Response) :
  send m sp temp k ms w = (Returned (k1, res), w1) ->
  reports_invalid_credential res ->
  OpenAIStream (S depth) m sp temp k ms w =
    match KeyStore.deleteKey k1 w1 with
    | (Returned _, w2) =>
        (k' <- KeyStore.getKey HIGHEST ;; OpenAIStream depth m sp temp k' ms) w2
    | (Thrown e, w2) => (Thrown e, w2)
    | (Running, w2) => (Running, w2)
    end.
Proof.
  intros Hsend [Hstatus [error [Hjson Hcode]]].
  cbn [OpenAIStream]. unfold bind at 1. rewrite Hsend. cbn [fst snd].
  destruct (Nat.eqb_spec (status res) 200) as [E|_]; [contradiction|].
  cbn [negb]. rewrite Hjson, Hcode, String.eqb_refl.
  unfold bind at 1. destruct (KeyStore.deleteKey k1 w1) as [[b|e|] w2]; reflexivity.
Qed.

(** C2, as the code has it: after a response that reports an invalid
    credential, the value [deleteKey] returns is ignored, so that on false
    as on true the relay acquires a credential and retries; an exception
    thrown by [deleteKey] is the outcome of [OpenAIStream], with no
    acquisition and no further request. *)
Theorem OpenAIStream_ignores_false_not_throw (depth : nat) (m : OpenAIModel)
    (sp : string) (temp : Q) (k : string) (ms : list Message)
    (w w1 : World) (k1 : string) (res : Response) :
  send m sp temp k ms w = (Returned (k1, res), w1) ->
  reports_invalid_credential res ->
  (forall success w2,
     KeyStore.deleteKey k1 w1 = (Returned success, w2) ->
     OpenAIStream (S depth) m sp temp k ms w
     = (k' <- KeyStore.getKey HIGHEST ;; OpenAIStream depth m sp temp k' ms) w2) /\
  (forall e w2,
     KeyStore.deleteKey k1 w1 = (Thrown e, w2) ->
     OpenAIStream (S depth) m sp temp k ms w = (Thrown e, w2) /\
     requests w2 = requests w1 /\ loads w2 = loads w1).
Proof.
  intros Hsend Hres.
  rewrite (OpenAIStream_after_invalid_credential depth _ _ _ _ _ _ _ _ _ Hsend Hres).
  split.
  - intros success w2 Hdel. now rewrite Hdel.
  - intros e w2 Hdel. rewrite Hdel. split; [reflexivity|].
    destruct (deleteKey_throws _ _ _ _ Hdel) as [_ [Hr Hl]]. auto.
Qed.

Lemma sample_invalid_api_key : reports_invalid_credential Sample.invalid_api_key.
Proof. split; [discriminate | eexists; split; reflexivity]. Defined.

Lemma OpenAIStream_ignores_false_not_throw_witness :
  fst (KeyStore.deleteKey "sk-a"
         (snd (send Sample.gpt35 "" 1 "" [] Sample.pool_refusing))) = Returned false /\
  requests (snd (OpenAIStream 2 Sample.gpt35 "" 1 "" [] Sample.pool_refusing))
    = ["sk-a"; "sk-b"].
Proof.
  split; [reflexivity|].
  destruct (OpenAIStream_ignores_false_not_throw 1 Sample.gpt35 "" 1 "" []
              Sample.pool_refusing
              (snd (send Sample.gpt35 "" 1 "" [] Sample.pool_refusing))
              "sk-a" Sample.invalid_api_key eq_refl sample_invalid_api_key)
    as [Hfalse _].
  rewrite (Hfalse false _ eq_refl). reflexivity.
Defined.

(** C2, refuted as stated: without a key server, the eviction step throws
    "Key server not configured" and that is what the caller of
    [OpenAIStream] gets; no second request is made. *)
Lemma OpenAIStream_propagates_deleteKey_failure :
  fst (OpenAIStream 3 Sample.gpt35 "" 1 "sk-user" [] Sample.callers_key)
    = Thrown Error_KeyServerNotConfigured /\
  requests (snd (OpenAIStream 3 Sample.gpt35 "" 1 "sk-user" [] Sample.callers_key))
    = ["sk-user"].
Proof. vm_compute. split; reflexivity. Qed.

(** ** The relay: replacement credentials *)

Lemma reload_after_eviction_nonempty (records : list SourceRecord) (w : World) :
  records <> [] ->
  KeyStore.select HIGHEST (statics (loaded records (evicted w))) <> [].
Proof.
  intros Hne. unfold KeyStore.select, loaded. cbn [statics KeyType_eqb KeyType_value Nat.eqb].
  rewrite push_all_gpt3, push_all_gpt4. cbn [evicted statics empty_pool gpt3keys gpt4keys app].
  destruct records as [|r records]; [congruence|].
  unfold premium_keys, standard_keys. cbn [filter].
  destruct (is_gpt3 r); cbn [negb map].
  - destruct (map src_key (filter (fun r0 => negb (is_gpt3 r0)) records)); simpl; discriminate.
  - simpl. discriminate.
Qed.

Lemma getKey_HIGHEST_after_eviction (records : list SourceRecord) (w : World) :
  no_override w ->
  Math_random_in_range w ->
  source_now (evicted w) = Some records ->
  (records <> [] ->
   exists k' w3,
     KeyStore.getKey HIGHEST (evicted w) = (Returned k', w3) /\
     In k' (map src_key records) /\
     (premium_keys records <> [] -> In k' (premium_keys records))) /\
  (records = [] ->
   exists w3,
     KeyStore.getKey HIGHEST (evicted w) = (Thrown (Error_NoKeysAvailable HIGHEST), w3)).
Proof.
  intros Hno Hrand Hsrc.
  assert (Hno1 : no_override (evicted w)) by exact Hno.
  rewrite (getKey_from_pool _ _ Hno1), load_when_uninitialized by reflexivity.
  rewrite Hsrc. split.
  - intros Hne. pose proof (reload_after_eviction_nonempty records w Hne) as Hsel.
    rewrite (pick_nonempty _ _ Hsel). eexists. eexists. split; [reflexivity|].
    destruct (Hrand (draws w)) as [Hlo Hhi].
    pose proof (drawn_key_in _ _ Hlo Hhi Hsel) as Hin.
    change (outside (loaded records (evicted w))) with (outside w).
    change (draws (loaded records (evicted w))) with (draws w).
    split.
    + apply select_from_sets in Hin. unfold loaded in Hin. cbn [statics] in Hin.
      rewrite push_all_gpt3, push_all_gpt4 in Hin. simpl in Hin.
      destruct Hin; [now apply standard_keys_listed | now apply premium_keys_listed].
    + intros Hprem. revert Hin. generalize (nth (KeyStore.floor_times
        (Math_random (outside w) (draws w))
        (length (KeyStore.select HIGHEST (statics (loaded records (evicted w))))))
        (KeyStore.select HIGHEST (statics (loaded records (evicted w)))) "").
      intros k'. unfold KeyStore.select, loaded.
      cbn [statics KeyType_eqb KeyType_value Nat.eqb].
      rewrite push_all_gpt4. cbn [evicted statics empty_pool gpt4keys app].
      destruct (premium_keys records); [congruence | simpl; auto].
  - intros ->. eexists. apply pick_empty. reflexivity.
Qed.

Lemma OpenAIStream_never_throws_invalid_api_key (depth : nat) (m : OpenAIModel)
    (sp : string) (temp : Q) (ms : list Message) :
  forall (k : string) (w w' : World) (error : OpenAIErrorFields),
    OpenAIStream depth m sp temp k ms w = (Thrown (OpenAIError error), w') ->
    code error <> "invalid_api_key".
Proof.
  induction depth as [|depth IH]; intros k w w' error; [discriminate|].
  cbn [OpenAIStream]. unfold bind at 1.
  destruct (send m sp temp k ms w) as [[[k1 res]|e|] w1] eqn:Hsend; try discriminate.
  - cbn [fst snd].
    destruct (negb (status res =? 200)); [|discriminate].
    destruct (res_json res) as [| | | |error0]; try discriminate.
    destruct (String.eqb_spec (code error0) "invalid_api_key") as [Hc|Hc].
    + unfold bind at 1.
      destruct (KeyStore.deleteKey k1 w1) as [[b|e|] w2] eqn:Hdel; try discriminate.
      * unfold bind at 1.
        destruct (KeyStore.getKey HIGHEST w2) as [[k'|e|] w3] eqn:Hget; try discriminate.
        -- apply IH.
        -- intros H. inversion H; subst.
           destruct (getKey_throws _ _ _ _ Hget); discriminate.
      * intros H. inversion H; subst.
        destruct (deleteKey_throws _ _ _ _ Hdel) as [[?|[?|?]] _]; discriminate.
    + intros H. inversion H; subst. exact Hc.
  - intros H. inversion H; subst. exfalso. exact (send_throws _ _ _ _ _ _ _ _ Hsend error eq_refl).
Qed.

(** C3, as the code has it: after a response that reports an invalid
    credential, and provided the eviction request is answered, the relay
    acquires a credential with [getKey] and its outcome is the outcome of
    the retry with it; with no override, a credential is found whenever the
    source then lists one, and the outcome is "No keys available" when it
    lists none.  In no case does [OpenAIStream] throw an [OpenAIError] with
    the code invalid_api_key. *)
Theorem OpenAIStream_retries_after_eviction (depth : nat) (m : OpenAIModel)
    (sp : string) (temp : Q) (k : string) (ms : list Message)
    (w w1 w2 : World) (k1 : string) (res : Response) (success : bool) :
  send m sp temp k ms w = (Returned (k1, res), w1) ->
  reports_invalid_credential res ->
  KeyStore.deleteKey k1 w1 = (Returned success, w2) ->
  (forall k' w3,
     KeyStore.getKey HIGHEST w2 = (Returned k', w3) ->
     OpenAIStream (S depth) m sp temp k ms w = OpenAIStream depth m sp temp k' ms w3) /\
  (no_override w -> Math_random_in_range w ->
   forall records, source_now w2 = Some records ->
     (records <> [] ->
      exists k' w3,
        KeyStore.getKey HIGHEST w2 = (Returned k', w3) /\ In k' (map src_key records)) /\
     (records = [] ->
      exists w3,
        OpenAIStream (S depth) m sp temp k ms w
        = (Thrown (Error_NoKeysAvailable HIGHEST), w3))) /\
  (forall error w',
     OpenAIStream (S depth) m sp temp k ms w = (Thrown (OpenAIError error), w') ->
     code error <> "invalid_api_key").
Proof.
  intros Hsend Hres Hdel.
  pose proof (OpenAIStream_after_invalid_credential depth _ _ _ _ _ _ _ _ _ Hsend Hres)
    as Hstep.
  rewrite Hdel in Hstep.
  destruct (send_returned _ _ _ _ _ _ _ _ _ Hsend) as [Henv [Hout _]].
  destruct (deleteKey_returned _ _ _ _ Hdel) as [_ [_ ->]].
  split; [|split].
  - intros k' w3 Hget. rewrite Hstep. unfold bind. now rewrite Hget.
  - intros Hno Hrand records Hsrc.
    assert (Hno1 : no_override w1) by (unfold no_override; now rewrite Henv).
    assert (Hr1 : Math_random_in_range w1) by (intros n; rewrite Hout; apply Hrand).
    destruct (getKey_HIGHEST_after_eviction records w1 Hno1 Hr1 Hsrc) as [Hsome Hnone].
    split.
    + intros Hne. destruct (Hsome Hne) as [k' [w3 [Hget [Hin _]]]]. eauto.
    + intros Hnil. destruct (Hnone Hnil) as [w3 Hget]. exists w3.
      rewrite Hstep. unfold bind. now rewrite Hget.
  - intros error w'. apply OpenAIStream_never_throws_invalid_api_key.
Qed.

Lemma OpenAIStream_retries_after_eviction_witness :
  requests (snd (OpenAIStream 2 Sample.gpt35 "" 1 "" [] Sample.pool_obliging))
    = ["sk-a"; "sk-b"] /\
  fst (OpenAIStream 2 Sample.gpt35 "" 1 "" [] Sample.pool_obliging)
    = Returned {| upstream := res_body Sample.ok_response; controller := new_Controller |}.
Proof.
  destruct (OpenAIStream_retries_after_eviction 1 Sample.gpt35 "" 1 "" []
              Sample.pool_obliging
              (snd (send Sample.gpt35 "" 1 "" [] Sample.pool_obliging))
              (evicted (snd (send Sample.gpt35 "" 1 "" [] Sample.pool_obliging)))
              "sk-a" Sample.invalid_api_key true
              eq_refl sample_invalid_api_key eq_refl)
    as [Hretry _].
  assert (Hget :
    KeyStore.getKey HIGHEST
      (evicted (snd (send Sample.gpt35 "" 1 "" [] Sample.pool_obliging)))
    = (Returned "sk-b",
       snd (KeyStore.getKey HIGHEST
              (evicted (snd (send Sample.gpt35 "" 1 "" [] Sample.pool_obliging))))))
    by (vm_compute; reflexivity).
  rewrite (Hretry _ _ Hget). vm_compute. split; reflexivity.
Defined.

(** C3, refuted as stated: the pool is read from a file that lists a
    second credential, the first one is reported invalid, and the caller
    gets "Key server not configured": no retry, and an error that is not
    "No keys available". *)
Lemma OpenAIStream_no_retry_without_key_server :
  fst (OpenAIStream 3 Sample.gpt35 "" 1 "" [] Sample.pool_on_file)
    = Thrown Error_KeyServerNotConfigured /\
  requests (snd (OpenAIStream 3 Sample.gpt35 "" 1 "" [] Sample.pool_on_file))
    = ["sk-a"] /\
  source_now (snd (OpenAIStream 3 Sample.gpt35 "" 1 "" [] Sample.pool_on_file))
    = Some Sample.both_tiers /\
  In "sk-b" (map src_key Sample.both_tiers).
Proof. vm_compute. repeat split. right. left. reflexivity. Qed.

(** C10: for a model other than gpt-4 the first credential is drawn with
    the tier GPT3, and after a response that reports an invalid credential
    the replacement is drawn with the tier HIGHEST; so, with no override,
    the retry uses a Premium credential whenever the reloaded source lists
    one. *)
Theorem OpenAIStream_retry_draws_HIGHEST (depth : nat) (m : OpenAIModel)
    (sp : string) (temp : Q) (k : string) (ms : list Message)
    (w w1 w2 : World) (k1 : string) (res : Response) (success : bool) :
  id m <> "gpt-4" ->
  send m sp temp k ms w = (Returned (k1, res), w1) ->
  reports_invalid_credential res ->
  KeyStore.deleteKey k1 w1 = (Returned success, w2) ->
  (k = "" -> exists w0, KeyStore.getKey GPT3 w = (Returned k1, w0)) /\
  OpenAIStream (S depth) m sp temp k ms w
  = (k' <- KeyStore.getKey HIGHEST ;; OpenAIStream depth m sp temp k' ms) w2 /\
  (no_override w -> Math_random_in_range w ->
   forall records, source_now w2 = Some records -> premium_keys records <> [] ->
     exists k' w3,
       KeyStore.getKey HIGHEST w2 = (Returned k', w3) /\
       In k' (premium_keys records) /\
       OpenAIStream (S depth) m sp temp k ms w = OpenAIStream depth m sp temp k' ms w3).
Proof.
  intros Hm Hsend Hres Hdel.
  pose proof (OpenAIStream_after_invalid_credential depth _ _ _ _ _ _ _ _ _ Hsend Hres)
    as Hstep.
  rewrite Hdel in Hstep.
  destruct (send_returned _ _ _ _ _ _ _ _ _ Hsend) as [Henv [Hout [_ Hfirst]]].
  destruct (deleteKey_returned _ _ _ _ Hdel) as [_ [_ ->]].
  split; [|split].
  - intros Hk. destruct (Hfirst Hk) as [w0 Hget].
    destruct (String.eqb_spec (id m) "gpt-4"); [contradiction | eauto].
  - exact Hstep.
  - intros Hno Hrand records Hsrc Hprem.
    assert (Hno1 : no_override w1) by (unfold no_override; now rewrite Henv).
    assert (Hr1 : Math_random_in_range w1) by (intros n; rewrite Hout; apply Hrand).
    destruct (getKey_HIGHEST_after_eviction records w1 Hno1 Hr1 Hsrc) as [Hsome _].
    assert (Hne : records <> []) by (intros ->; apply Hprem; reflexivity).
    destruct (Hsome Hne) as [k' [w3 [Hget [_ Hin]]]].
    exists k', w3. repeat split; [exact Hget | auto |].
    rewrite Hstep. unfold bind. now rewrite Hget.
Qed.

Lemma OpenAIStream_retry_draws_HIGHEST_witness :
  fst (KeyStore.getKey GPT3 Sample.pool_obliging) = Returned "sk-a" /\
  standard_keys Sample.both_tiers = ["sk-a"] /\
  premium_keys Sample.both_tiers = ["sk-b"] /\
  requests (snd (OpenAIStream 2 Sample.gpt35 "" 1 "" [] Sample.pool_obliging))
    = ["sk-a"; "sk-b"].
Proof.
  destruct (OpenAIStream_retry_draws_HIGHEST 1 Sample.gpt35 "" 1 "" []
              Sample.pool_obliging
              (snd (send Sample.gpt35 "" 1 "" [] Sample.pool_obliging))
              (evicted (snd (send Sample.gpt35 "" 1 "" [] Sample.pool_obliging)))
              "sk-a" Sample.invalid_api_key true)
    as [_ [Hstep _]].
  - discriminate.
  - reflexivity.
  - exact sample_invalid_api_key.
  - reflexivity.
  - rewrite Hstep. vm_compute. repeat split.
Defined.

(** ** The re-framing producer: closed and errored streams *)

Lemma onParse_try_settled (JSON_parse : string -> option json) (data : string)
    (c c' : Controller) :
  state c <> readable -> onParse_try JSON_parse data c <> Done c'.
Proof.
  intros Hterm. unfold onParse_try.
  assert (Hcan : canCloseOrEnqueue c = false).
  { unfold canCloseOrEnqueue, is_readable.
    destruct (state c); [congruence | | ]; apply andb_false_r. }
  destruct (JSON_parse data) as [parsed|]; [|discriminate].
  destruct (get_member "choices" (Some parsed)) as [choices|]; [|discriminate].
  cbn [and_then].
  destruct (get_index0 choices) as [choice|]; [|discriminate]. cbn [and_then].
  destruct (get_member "finish_reason" choice) as [fr|]; [|discriminate]. cbn [and_then].
  destruct (not_nullish fr).
  - unfold controller_close. rewrite Hcan. discriminate.
  - destruct (get_member "delta" choice) as [delta|]; [|discriminate]. cbn [and_then].
    destruct (get_member "content" delta) as [text|]; [|discriminate]. cbn [and_then].
    destruct (encode text) as [chunk|]; [|discriminate]. cbn [and_then].
    unfold controller_enqueue. rewrite Hcan. discriminate.
Qed.

Lemma controller_error_settled (e : Exn) (c : Controller) :
  state c <> readable -> controller_error e c = c.
Proof.
  unfold controller_error, is_readable.
  destruct (state c); [congruence | reflexivity | reflexivity].
Qed.

Lemma onParse_settled (JSON_parse : string -> option json) (event : ParserOutput)
    (c : Controller) :
  state c <> readable -> onParse JSON_parse event c = c.
Proof.
  intros Hterm. destruct event as [data|n]; [|reflexivity].
  unfold onParse.
  destruct (onParse_try JSON_parse data c) as [c'|e] eqn:E.
  - exfalso. exact (onParse_try_settled _ _ _ _ Hterm E).
  - now apply controller_error_settled.
Qed.

Lemma consumer_read_settled (c : Controller) :
  state c <> readable -> consumer_read c = c.
Proof.
  unfold consumer_read.
  destruct (state c); [congruence | reflexivity | reflexivity].
Qed.

Lemma turn_settled (JSON_parse : string -> option json) (s : ReadableStream) (t : Turn) :
  state (controller s) <> readable -> controller (turn JSON_parse s t) = controller s.
Proof.
  intros Hterm. destruct t; unfold turn.
  - destruct (upstream s); [reflexivity|]. simpl. now apply onParse_settled.
  - simpl. now apply consumer_read_settled.
Qed.

Lemma run_settled (JSON_parse : string -> option json) (schedule : list Turn) :
  forall s, state (controller s) <> readable ->
            controller (run JSON_parse schedule s) = controller s.
Proof.
  unfold run. induction schedule as [|t schedule IH]; intros s Hterm; [reflexivity|].
  simpl. rewrite IH; rewrite (turn_settled JSON_parse s t Hterm); [reflexivity | exact Hterm].
Qed.

(** A remark on [controller.close()]: called with chunks still queued it
    leaves the stream readable until the consumer has read them, so a record
    that fails in [onParse] before that errors the stream and the queued
    chunks are dropped.  Here the three records of the example and then
    "[DONE]" are fed before the consumer reads. *)
Lemma close_requested_stream_is_still_readable :
  state (controller
           (run Sample.JSON_parse [producer; producer; producer]
              {| upstream := res_body Sample.ok_response ++ [ParsedEvent Sample.record_DONE];
                 controller := new_Controller |})) = readable /\
  controller
    (run Sample.JSON_parse [producer; producer; producer; producer; consumer]
       {| upstream := res_body Sample.ok_response ++ [ParsedEvent Sample.record_DONE];
          controller := new_Controller |})
  = {| state := errored SyntaxError; closeRequested := true; queue := [];
       delivered := [] |}.
Proof. split; reflexivity. Qed.

(** ** The re-framing producer: the example of the specification *)

Lemma onParse_delta_event (JSON_parse : string -> option json) (data text : string)
    (c : Controller) :
  delta_event JSON_parse data text ->
  onParse JSON_parse (ParsedEvent data) c =
    match controller_enqueue (list_byte_of_string text) c with
    | Done c' => c'
    | Raised e => controller_error e c
    end.
Proof.
  intros [parsed [choice [fr [delta [Hp [Hc [Hf [Hn [Hd Ht]]]]]]]]].
  unfold onParse, onParse_try. rewrite Hp.
  unfold first_choice in Hc.
  destruct (get_member "choices" (Some parsed)) as [choices|]; [|discriminate].
  cbn [and_then] in *. rewrite Hc. cbn [and_then]. rewrite Hf. cbn [and_then].
  rewrite Hn, Hd. cbn [and_then]. rewrite Ht. reflexivity.
Qed.

Lemma onParse_finish_event (JSON_parse : string -> option json) (data : string)
    (c : Controller) :
  finish_event JSON_parse data ->
  onParse JSON_parse (ParsedEvent data) c =
    match controller_close c with
    | Done c' => c'
    | Raised e => controller_error e c
    end.
Proof.
  intros [parsed [choice [fr [Hp [Hc [Hf Hn]]]]]].
  unfold onParse, onParse_try. rewrite Hp.
  unfold first_choice in Hc.
  destruct (get_member "choices" (Some parsed)) as [choices|]; [|discriminate].
  cbn [and_then] in *. rewrite Hc. cbn [and_then]. rewrite Hf. cbn [and_then].
  now rewrite Hn.
Qed.

Lemma Hel_lo_turn (JSON_parse : string -> option json) (d1 d2 d3 : string)
    (fed read : nat) (t : Turn) :
  delta_event JSON_parse d1 "Hel" ->
  delta_event JSON_parse d2 "lo" ->
  finish_event JSON_parse d3 ->
  fed <= 3 -> read <= 2 -> read <= fed ->
  exists fed' read',
    fed' <= 3 /\ read' <= 2 /\ read' <= fed' /\
    turn JSON_parse (Hel_lo_stream d1 d2 d3 fed read) t
    = Hel_lo_stream d1 d2 d3 fed' read'.
Proof.
  intros H1 H2 H3 Hfed Hread Hle.
  destruct t.
  - exists (Nat.min 3 (S fed)), read.
    repeat split; try lia.
    destruct fed as [|[|[|[|fed]]]]; try lia;
      destruct read as [|[|[|read]]]; try lia;
      unfold turn, Hel_lo_stream; cbn [upstream skipn controller];
      rewrite ?(onParse_delta_event _ _ _ _ H1), ?(onParse_delta_event _ _ _ _ H2),
        ?(onParse_finish_event _ _ _ H3);
      reflexivity.
  - exists fed, (Nat.min (S read) (Nat.min fed 2)).
    repeat split; try lia.
    destruct fed as [|[|[|[|fed]]]]; try lia;
      destruct read as [|[|[|read]]]; try lia; reflexivity.
Qed.

Lemma Hel_lo_run (JSON_parse : string -> option json) (d1 d2 d3 : string)
    (schedule : list Turn) :
  delta_event JSON_parse d1 "Hel" ->
  delta_event JSON_parse d2 "lo" ->
  finish_event JSON_parse d3 ->
  forall fed read,
    fed <= 3 -> read <= 2 -> read <= fed ->
    exists fed' read',
      fed' <= 3 /\ read' <= 2 /\ read' <= fed' /\
      run JSON_parse schedule (Hel_lo_stream d1 d2 d3 fed read)
      = Hel_lo_stream d1 d2 d3 fed' read'.
Proof.
  intros H1 H2 H3. unfold run.
  induction schedule as [|t schedule IH]; intros fed read Hfed Hread Hle.
  - exists fed, read. auto.
  - simpl.
    destruct (Hel_lo_turn JSON_parse d1 d2 d3 fed read t H1 H2 H3 Hfed Hread Hle)
      as [fed1 [read1 [Hf1 [Hr1 [Hl1 ->]]]]].
    now apply IH.
Qed.

(** C4: for a delta event with content "Hel", a delta event with content
    "lo" and an event whose first choice has a finish reason, whatever the
    order in which the producer and the consumer take their turns, the
    consumer is handed the bytes of "Hel" and then the bytes of "lo" and
    nothing else; once the three events are fed and the queue is read the
    stream is closed and the bytes delivered are those of "Hello"; and
    feeding the three events and reading twice gets there. *)
Theorem reframing_yields_Hel_lo_then_closes (JSON_parse : string -> option json)
    (d1 d2 d3 : string) (schedule : list Turn) :
  delta_event JSON_parse d1 "Hel" ->
  delta_event JSON_parse d2 "lo" ->
  finish_event JSON_parse d3 ->
  let start := {| upstream := [ParsedEvent d1; ParsedEvent d2; ParsedEvent d3];
                  controller := new_Controller |} in
  let reached := run JSON_parse schedule start in
  let finished := run JSON_parse [producer; producer; producer; consumer; consumer] start in
  (exists n, delivered (controller reached)
             = firstn n [list_byte_of_string "Hel"; list_byte_of_string "lo"]) /\
  (upstream reached = [] -> queue (controller reached) = [] ->
   delivered (controller reached) = [list_byte_of_string "Hel"; list_byte_of_string "lo"] /\
   state (controller reached) = closed /\
   concat (delivered (controller reached)) = list_byte_of_string "Hello") /\
  (delivered (controller finished)
   = [list_byte_of_string "Hel"; list_byte_of_string "lo"] /\
   state (controller finished) = closed /\
   concat (delivered (controller finished)) = list_byte_of_string "Hello").
Proof.
  intros H1 H2 H3 start reached finished.
  destruct (Hel_lo_run JSON_parse d1 d2 d3 schedule H1 H2 H3 0 0)
    as [fed [read [Hfed [Hread [Hle Hnow]]]]]; try lia.
  change (Hel_lo_stream d1 d2 d3 0 0) with start in Hnow. fold reached in Hnow.
  split; [|split].
  - exists read. rewrite Hnow. reflexivity.
  - rewrite Hnow. intros Hup Hq.
    destruct fed as [|[|[|[|fed]]]]; try lia; try discriminate Hup;
      destruct read as [|[|[|read]]]; try lia; try discriminate Hq.
    repeat split.
  - unfold finished, run, start. cbn [fold_left turn upstream controller].
    rewrite (onParse_finish_event _ _ _ H3), (onParse_delta_event _ _ _ _ H2),
      (onParse_delta_event _ _ _ _ H1).
    repeat split.
Qed.

Lemma sample_delta_Hel : delta_event Sample.JSON_parse Sample.record_Hel "Hel".
Proof. repeat eexists. Defined.

Lemma sample_delta_lo : delta_event Sample.JSON_parse Sample.record_lo "lo".
Proof. repeat eexists. Defined.

Lemma sample_finish_stop : finish_event Sample.JSON_parse Sample.record_stop.
Proof. repeat eexists. Defined.

Lemma reframing_yields_Hel_lo_then_closes_witness :
  delivered (controller
               (run Sample.JSON_parse [producer; producer; producer; consumer; consumer]
                  {| upstream := res_body Sample.ok_response;
                     controller := new_Controller |}))
    = [list_byte_of_string "Hel"; list_byte_of_string "lo"] /\
  state (controller
           (run Sample.JSON_parse [producer; producer; producer; consumer; consumer]
              {| upstream := res_body Sample.ok_response;
                 controller := new_Controller |})) = closed /\
  concat (delivered (controller
            (run Sample.JSON_parse [producer; producer; producer; consumer; consumer]
               {| upstream := res_body Sample.ok_response;
                  controller := new_Controller |})))
    = list_byte_of_string "Hello".
Proof.
  apply (reframing_yields_Hel_lo_then_closes Sample.JSON_parse
           Sample.record_Hel Sample.record_lo Sample.record_stop []
           sample_delta_Hel sample_delta_lo sample_finish_stop).
Defined.

(** ** The re-framing producer: the states of the specification *)

Lemma onParse_try_cannot_enqueue (JSON_parse : string -> option json) (data : string)
    (c c' : Controller) :
  canCloseOrEnqueue c = false -> onParse_try JSON_parse data c <> Done c'.
Proof.
  intros Hcan. unfold onParse_try.
  destruct (JSON_parse data) as [parsed|]; [|discriminate].
  destruct (get_member "choices" (Some parsed)) as [choices|]; [|discriminate].
  cbn [and_then].
  destruct (get_index0 choices) as [choice|]; [|discriminate]. cbn [and_then].
  destruct (get_member "finish_reason" choice) as [fr|]; [|discriminate]. cbn [and_then].
  destruct (not_nullish fr).
  - unfold controller_close. rewrite Hcan. discriminate.
  - destruct (get_member "delta" choice) as [delta|]; [|discriminate]. cbn [and_then].
    destruct (get_member "content" delta) as [text|]; [|discriminate]. cbn [and_then].
    destruct (encode text) as [chunk|]; [|discriminate]. cbn [and_then].
    unfold controller_enqueue. rewrite Hcan. discriminate.
Qed.

Lemma onParse_when_closing (JSON_parse : string -> option json) (event : ParserOutput)
    (c : Controller) :
  closeRequested c = true ->
  onParse JSON_parse event c = c \/
  exists e, onParse JSON_parse event c
            = {| state := errored e; closeRequested := true; queue := [];
                 delivered := delivered c |}.
Proof.
  intros Hclose. destruct event as [data|n]; [|left; reflexivity].
  unfold onParse.
  destruct (onParse_try JSON_parse data c) as [c'|e] eqn:E.
  - exfalso. refine (onParse_try_cannot_enqueue _ _ _ _ _ E).
    unfold canCloseOrEnqueue. now rewrite Hclose.
  - unfold controller_error. destruct (is_readable c); [|left; reflexivity].
    right. exists e. now rewrite Hclose.
Qed.

Lemma skipn_cons_step {A : Type} (n : nat) (l : list A) (x : A) (rest : list A) :
  skipn n l = x :: rest ->
  firstn (S n) l = (firstn n l ++ [x])%list /\ skipn (S n) l = rest.
Proof.
  revert l. induction n as [|n IH]; intros l H.
  - simpl in H. subst l. split; reflexivity.
  - destruct l as [|y l]; [discriminate|]. simpl in H.
    destruct (IH l H) as [Hf Hs]. split.
    + change (firstn (S (S n)) (y :: l)) with (y :: firstn (S n) l).
      rewrite Hf. reflexivity.
    + exact Hs.
Qed.

Lemma closing_run (JSON_parse : string -> option json) (before queued : list (list byte))
    (schedule : list Turn) :
  forall (s : ReadableStream) (n : nat),
    closeRequested (controller s) = true ->
    delivered (controller s) = (before ++ firstn n queued)%list ->
    (state (controller s) = readable -> queue (controller s) = skipn n queued) ->
    exists n',
      delivered (controller (run JSON_parse schedule s))
      = (before ++ firstn n' queued)%list.
Proof.
  unfold run. induction schedule as [|t schedule IH]; intros s n Hclose Hdel Hq.
  - exists n. exact Hdel.
  - simpl. destruct t.
    + destruct (upstream s) as [|event rest] eqn:Hup.
      * assert (Hturn : turn JSON_parse s producer = s)
          by (unfold turn; now rewrite Hup).
        rewrite Hturn. now apply (IH s n).
      * assert (Hturn : turn JSON_parse s producer
                        = {| upstream := rest;
                             controller := onParse JSON_parse event (controller s) |})
          by (unfold turn; now rewrite Hup).
        rewrite Hturn.
        destruct (onParse_when_closing JSON_parse event (controller s) Hclose)
          as [Hsame|[e Herr]].
        -- rewrite Hsame. now apply (IH _ n).
        -- rewrite Herr. apply (IH _ n); simpl; auto. discriminate.
    + assert (Hturn : turn JSON_parse s consumer
                      = {| upstream := upstream s;
                           controller := consumer_read (controller s) |})
        by reflexivity.
      rewrite Hturn. unfold consumer_read.
      destruct (state (controller s)) eqn:Hstate;
        try (apply (IH _ n); simpl; auto; rewrite Hstate; discriminate).
      destruct (queue (controller s)) as [|chunk rest] eqn:Hqueue.
      * apply (IH _ n); simpl; auto.
        intros _. rewrite Hqueue. now apply Hq.
      * specialize (Hq eq_refl). symmetry in Hq.
        destruct (skipn_cons_step n queued chunk rest Hq) as [Hf Hs].
        apply (IH _ (S n)); cbn [controller delivered closeRequested queue state];
          [exact Hclose | rewrite Hdel, Hf, app_assoc; reflexivity | intros _; congruence].
Qed.

Lemma run_keeps_closeRequested (JSON_parse : string -> option json)
    (schedule : list Turn) :
  forall s, closeRequested (controller s) = true ->
            closeRequested (controller (run JSON_parse schedule s)) = true.
Proof.
  unfold run. induction schedule as [|t schedule IH]; intros s Hclose; [exact Hclose|].
  simpl. apply IH. destruct t; unfold turn.
  - destruct (upstream s) as [|event rest]; [exact Hclose|]. cbn [controller].
    destruct (onParse_when_closing JSON_parse event (controller s) Hclose)
      as [Hsame|[e Herr]]; [now rewrite Hsame | now rewrite Herr].
  - cbn [controller]. unfold consumer_read.
    destruct (state (controller s)); try exact Hclose.
    destruct (queue (controller s)); exact Hclose.
Qed.

(** C5, refuted as stated.  The three records of the example and then
    "[DONE]" are fed before the consumer reads: the finish record puts the
    machine in Closed-Success, the next record takes it to Closed-Error,
    and the two chunks that were queued are never delivered.  And when
    the consumer has read both chunks before "[DONE]" is fed, that record,
    which is not JSON, leaves the stream closed: it does not put it in the
    error state. *)
Lemma finish_then_DONE_leaves_Closed_Success :
  finish_event Sample.JSON_parse Sample.record_stop /\
  Sample.JSON_parse Sample.record_DONE = None /\
  reframing_state
    (controller (run Sample.JSON_parse [producer; producer; producer]
                   Fixture.Hel_lo_DONE)) = Closed_Success /\
  reframing_state
    (controller (run Sample.JSON_parse [producer; producer; producer; producer]
                   Fixture.Hel_lo_DONE)) = Closed_Error /\
  delivered
    (controller (run Sample.JSON_parse
                   [producer; producer; producer; producer; consumer; consumer]
                   Fixture.Hel_lo_DONE)) = [] /\
  state
    (controller (run Sample.JSON_parse
                   [producer; producer; producer; consumer; consumer; producer]
                   Fixture.Hel_lo_DONE)) = closed.
Proof.
  split; [repeat eexists|]. repeat split.
Qed.

(** C5, as the code has it.  The finish record takes the machine from
    Streaming to Closed-Success and leaves the queue as it is.  A record
    that is not JSON, met while the stream is readable, puts it in the
    error state at that record, what was queued is dropped, and whatever
    the producer and the consumer do afterwards nothing more is delivered.
    From a stream that is closed or errored no turn of the producer or of
    the consumer changes the state, the queue or what has been delivered.
    From Closed-Success the machine never returns to Streaming and no
    chunk is queued any more: what the consumer is handed from then on is
    a prefix of what was queued when [controller.close()] was called. *)
Theorem malformed_record_errors_and_closed_states_stay
    (JSON_parse : string -> option json) :
  (forall (s : ReadableStream) (data : string) (rest : list ParserOutput),
     upstream s = ParsedEvent data :: rest ->
     finish_event JSON_parse data ->
     reframing_state (controller s) = Streaming ->
     reframing_state (controller (turn JSON_parse s producer)) = Closed_Success /\
     closeRequested (controller (turn JSON_parse s producer)) = true /\
     queue (controller (turn JSON_parse s producer)) = queue (controller s) /\
     delivered (controller (turn JSON_parse s producer)) = delivered (controller s)) /\
  (forall (s : ReadableStream) (data : string) (rest : list ParserOutput)
          (schedule : list Turn),
     upstream s = ParsedEvent data :: rest ->
     JSON_parse data = None ->
     state (controller s) = readable ->
     reframing_state (controller (turn JSON_parse s producer)) = Closed_Error /\
     state (controller (turn JSON_parse s producer)) = errored SyntaxError /\
     queue (controller (turn JSON_parse s producer)) = [] /\
     delivered (controller (turn JSON_parse s producer)) = delivered (controller s) /\
     controller (run JSON_parse schedule (turn JSON_parse s producer))
     = controller (turn JSON_parse s producer)) /\
  (forall (s : ReadableStream) (schedule : list Turn),
     state (controller s) <> readable ->
     controller (run JSON_parse schedule s) = controller s) /\
  (forall (s : ReadableStream) (schedule : list Turn),
     reframing_state (controller s) = Closed_Success ->
     reframing_state (controller (run JSON_parse schedule s)) <> Streaming /\
     exists n,
       delivered (controller (run JSON_parse schedule s))
       = (delivered (controller s) ++ firstn n (queue (controller s)))%list).
Proof.
  split; [|split; [|split]].
  - intros s data rest Hup Hfinish Hstate.
    assert (Hturn : controller (turn JSON_parse s producer)
                    = {| state := match queue (controller s) with
                                  | [] => closed
                                  | _ => readable
                                  end;
                         closeRequested := true;
                         queue := queue (controller s);
                         delivered := delivered (controller s) |}).
    { unfold turn. rewrite Hup. cbn [controller].
      rewrite (onParse_finish_event _ _ _ Hfinish).
      unfold controller_close, canCloseOrEnqueue, is_readable.
      unfold reframing_state in Hstate.
      destruct (state (controller s)); try discriminate.
      destruct (closeRequested (controller s)); [discriminate | reflexivity]. }
    rewrite Hturn. unfold reframing_state. cbn [state closeRequested queue delivered].
    destruct (queue (controller s)); auto.
  - intros s data rest schedule Hup Hbad Hstate.
    assert (Hturn : controller (turn JSON_parse s producer)
                    = {| state := errored SyntaxError;
                         closeRequested := closeRequested (controller s);
                         queue := []; delivered := delivered (controller s) |}).
    { unfold turn. rewrite Hup. simpl. unfold onParse_try. rewrite Hbad.
      unfold controller_error, is_readable. now rewrite Hstate. }
    rewrite run_settled; rewrite Hturn; simpl; [auto | discriminate].
  - intros s schedule. apply run_settled.
  - intros s schedule Hstate.
    destruct (state (controller s)) eqn:Hs.
    + assert (Hclose : closeRequested (controller s) = true).
      { unfold reframing_state in Hstate. rewrite Hs in Hstate.
        destruct (closeRequested (controller s)); [reflexivity | discriminate]. }
      split.
      * pose proof (run_keeps_closeRequested JSON_parse schedule s Hclose) as Hkept.
        unfold reframing_state. rewrite Hkept.
        destruct (state (controller (run JSON_parse schedule s))); discriminate.
      * apply (closing_run JSON_parse (delivered (controller s)) (queue (controller s))
                 schedule s 0); auto.
        simpl. now rewrite app_nil_r.
    + rewrite run_settled by (rewrite Hs; discriminate). split.
      * rewrite Hstate. discriminate.
      * exists 0. simpl. now rewrite app_nil_r.
    + unfold reframing_state in Hstate. rewrite Hs in Hstate. discriminate.
Qed.

Lemma malformed_record_errors_and_closed_states_stay_witness :
  reframing_state
    (controller (turn Sample.JSON_parse
                   {| upstream := [ParsedEvent Sample.record_stop];
                      controller :=
                        {| state := readable; closeRequested := false;
                           queue := [list_byte_of_string "Hel"]; delivered := [] |} |}
                   producer)) = Closed_Success /\
  controller
    (run Sample.JSON_parse
       [producer; consumer; producer; producer; consumer; producer; consumer]
       {| upstream := [ParsedEvent Sample.record_Hel; ParsedEvent Sample.record_DONE;
                       ParsedEvent Sample.record_lo; ParsedEvent Sample.record_stop];
          controller := new_Controller |})
  = {| state := errored SyntaxError; closeRequested := false; queue := [];
       delivered := [list_byte_of_string "Hel"] |} /\
  reframing_state
    (controller (run Sample.JSON_parse [producer; consumer; producer] Fixture.closing))
  <> Streaming.
Proof.
  destruct (malformed_record_errors_and_closed_states_stay Sample.JSON_parse)
    as [Hfinish [Hbad [_ Hclosed]]].
  split; [|split].
  - apply (Hfinish {| upstream := [ParsedEvent Sample.record_stop];
                      controller :=
                        {| state := readable; closeRequested := false;
                           queue := [list_byte_of_string "Hel"]; delivered := [] |} |}
                   Sample.record_stop []).
    + reflexivity.
    + exact sample_finish_stop.
    + reflexivity.
  - destruct (Hbad {| upstream := [ParsedEvent Sample.record_DONE;
                                   ParsedEvent Sample.record_lo;
                                   ParsedEvent Sample.record_stop];
                      controller :=
                        {| state := readable; closeRequested := false; queue := [];
                           delivered := [list_byte_of_string "Hel"] |} |}
                   Sample.record_DONE
                   [ParsedEvent Sample.record_lo; ParsedEvent Sample.record_stop]
                   [producer; consumer; producer; consumer]
                   eq_refl eq_refl eq_refl)
      as [_ [_ [_ [_ Hstay]]]].
    exact Hstay.
  - apply (Hclosed Fixture.closing [producer; consumer; producer]). reflexivity.
Defined.

(** * Further properties of the code *)

(** ** KeyStore: the tier GPT4 *)

(** X1: without an override and once the pool is populated, [getKey] for
    the tier GPT4 draws from the gpt-4 array only: it throws "No keys
    available" exactly when that array is empty, whatever the gpt-3 array
    holds. *)
Theorem getKey_GPT4_never_falls_back (w w1 : World) :
  no_override w ->
  Math_random_in_range w ->
  KeyStore.load_if_uninitialized w = (Returned tt, w1) ->
  (gpt4keys (statics w1) <> [] ->
   exists k w2,
     KeyStore.getKey GPT4 w = (Returned k, w2) /\ In k (gpt4keys (statics w1))) /\
  (gpt4keys (statics w1) = [] ->
   KeyStore.getKey GPT4 w = (Thrown (Error_NoKeysAvailable GPT4), w1)).
Proof.
  intros Hno Hrand Hload.
  rewrite (getKey_from_pool _ _ Hno), Hload.
  assert (Hsel : KeyStore.select GPT4 (statics w1) = gpt4keys (statics w1)) by reflexivity.
  assert (Hout : outside w1 = outside w).
  { destruct (initialized (statics w)) eqn:Hi.
    - rewrite (load_when_initialized _ Hi) in Hload. now inversion Hload.
    - rewrite (load_when_uninitialized _ Hi) in Hload.
      destruct (source_now w); inversion Hload; reflexivity. }
  split.
  - intros Hne. rewrite pick_nonempty by now rewrite Hsel.
    rewrite Hsel. eexists. eexists. split; [reflexivity|].
    destruct (Hrand (draws w1)) as [Hlo Hhi]. rewrite <- Hout in Hlo, Hhi.
    now apply drawn_key_in.
  - intros He. apply pick_empty. now rewrite Hsel.
Qed.

Lemma getKey_GPT4_never_falls_back_witness :
  gpt3keys (statics (loaded [ {| src_key := "sk-a"; src_type := "gpt-3" |} ]
                       Fixture.standard_only)) = ["sk-a"] /\
  KeyStore.getKey GPT4 Fixture.standard_only
  = (Thrown (Error_NoKeysAvailable GPT4),
     loaded [ {| src_key := "sk-a"; src_type := "gpt-3" |} ] Fixture.standard_only).
Proof.
  split; [reflexivity|].
  apply (getKey_GPT4_never_falls_back Fixture.standard_only
           (loaded [ {| src_key := "sk-a"; src_type := "gpt-3" |} ]
              Fixture.standard_only)).
  - reflexivity.
  - apply sample_random_in_range.
  - reflexivity.
  - reflexivity.
Defined.

(** ** KeyStore: what a load does to the arrays *)

Lemma arrays_after_load (t : KeyType) (w : World) (records : list SourceRecord) :
  no_override w ->
  initialized (statics w) = false ->
  source_now w = Some records ->
  gpt3keys (statics (snd (KeyStore.getKey t w)))
    = (gpt3keys (statics w) ++ standard_keys records)%list /\
  gpt4keys (statics (snd (KeyStore.getKey t w)))
    = (gpt4keys (statics w) ++ premium_keys records)%list /\
  loads (snd (KeyStore.getKey t w)) = S (loads w).
Proof.
  intros Hno Hi Hsrc.
  rewrite (getKey_from_pool _ _ Hno), (load_when_uninitialized _ Hi), Hsrc.
  assert (H3 : gpt3keys (statics (loaded records w))
               = (gpt3keys (statics w) ++ standard_keys records)%list)
    by (unfold loaded; simpl; apply push_all_gpt3).
  assert (H4 : gpt4keys (statics (loaded records w))
               = (gpt4keys (statics w) ++ premium_keys records)%list)
    by (unfold loaded; simpl; apply push_all_gpt4).
  destruct (list_eq_dec string_dec
              (KeyStore.select t (statics (loaded records w))) []) as [Hs|Hs].
  - rewrite (pick_empty _ _ Hs). simpl. auto.
  - rewrite (pick_nonempty _ _ Hs). simpl. auto.
Qed.

(** X2: on a pool whose flag is not set, [getKey] appends the records of
    the source to the arrays it already holds, in the order of the source,
    whatever the outcome of the draw: nothing is cleared and nothing is
    deduplicated. *)
Theorem getKey_load_appends (t : KeyType) (w : World) (records : list SourceRecord) :
  no_override w ->
  initialized (statics w) = false ->
  source_now w = Some records ->
  gpt3keys (statics (snd (KeyStore.getKey t w)))
    = (gpt3keys (statics w) ++ standard_keys records)%list /\
  gpt4keys (statics (snd (KeyStore.getKey t w)))
    = (gpt4keys (statics w) ++ premium_keys records)%list /\
  loads (snd (KeyStore.getKey t w)) = S (loads w).
Proof.
  intros Hno Hi Hsrc.
  destruct (KeyStore.getKey t w) as [r w'] eqn:E.
  pose proof (arrays_after_load t w records Hno Hi Hsrc) as H.
  rewrite E in H. exact H.
Qed.

Lemma getKey_load_appends_witness :
  fst (KeyStore.getKey GPT4 Fixture.standard_only)
    = Thrown (Error_NoKeysAvailable GPT4) /\
  gpt3keys (statics (snd (KeyStore.getKey GPT3
                            (snd (KeyStore.getKey GPT4 Fixture.standard_only)))))
    = ["sk-a"; "sk-a"].
Proof.
  split; [reflexivity|].
  destruct (getKey_load_appends GPT3 (snd (KeyStore.getKey GPT4 Fixture.standard_only))
              [ {| src_key := "sk-a"; src_type := "gpt-3" |} ]
              eq_refl eq_refl eq_refl) as [H3 _].
  rewrite H3. reflexivity.
Defined.

Lemma push_all_length (keys : list Key) (s : KeyStoreFields) :
  length (gpt3keys (fold_left KeyStore.push_key keys s))
  + length (gpt4keys (fold_left KeyStore.push_key keys s))
  = length (gpt3keys s) + length (gpt4keys s) + length keys.
Proof.
  revert s. induction keys as [|k keys IH]; intros s; simpl; [lia|].
  rewrite IH. unfold KeyStore.push_key.
  destruct (KeyType_eqb (type k) GPT4); simpl; rewrite length_app; simpl; lia.
Qed.

(** X3: a load files every record of the source under exactly one of the
    two arrays: under gpt-3 when its type is the text "gpt-3", and under
    gpt-4 for any other type text; the two arrays grow by the number of
    records together. *)
Theorem getKey_load_files_every_record (t : KeyType) (w : World)
    (records : list SourceRecord) :
  no_override w ->
  initialized (statics w) = false ->
  source_now w = Some records ->
  (forall r, In r records ->
     (src_type r = "gpt-3" ->
      In (src_key r) (gpt3keys (statics (snd (KeyStore.getKey t w))))) /\
     (src_type r <> "gpt-3" ->
      In (src_key r) (gpt4keys (statics (snd (KeyStore.getKey t w)))))) /\
  length (gpt3keys (statics (snd (KeyStore.getKey t w))))
  + length (gpt4keys (statics (snd (KeyStore.getKey t w))))
  = length (gpt3keys (statics w)) + length (gpt4keys (statics w)) + length records.
Proof.
  intros Hno Hi Hsrc.
  destruct (arrays_after_load t w records Hno Hi Hsrc) as [H3 [H4 _]].
  rewrite H3, H4. split.
  - intros r Hr. split; intros Ht; apply in_or_app; right.
    + unfold standard_keys. apply in_map. apply filter_In. split; [exact Hr|].
      unfold is_gpt3. rewrite Ht. reflexivity.
    + unfold premium_keys. apply in_map. apply filter_In. split; [exact Hr|].
      unfold is_gpt3. destruct (String.eqb_spec (src_type r) "gpt-3"); [contradiction|reflexivity].
  - rewrite !length_app. unfold standard_keys, premium_keys. rewrite !length_map.
    assert (Hpart : length (filter is_gpt3 records)
                    + length (filter (fun r => negb (is_gpt3 r)) records)
                    = length records).
    { clear. induction records as [|r records IH]; simpl; [reflexivity|].
      destruct (is_gpt3 r); simpl; lia. }
    lia.
Qed.

Lemma getKey_load_files_every_record_witness :
  In "sk-c"
    (gpt4keys (statics (snd (KeyStore.getKey HIGHEST
                               (Sample.start Sample.server_env
                                  (Sample.served Fixture.mistyped true "sk-none")))))).
Proof.
  destruct (getKey_load_files_every_record HIGHEST
              (Sample.start Sample.server_env
                 (Sample.served Fixture.mistyped true "sk-none"))
              Fixture.mistyped eq_refl eq_refl eq_refl) as [Hfiled _].
  destruct (Hfiled {| src_key := "sk-c"; src_type := "GPT-3" |}) as [_ H4].
  - right. left. reflexivity.
  - apply H4. discriminate.
Defined.

(** ** KeyStore: what the methods touch *)

(** X4: [deleteKey] sends its request exactly when both the key server and
    its authorization are configured; otherwise it throws "Key server not
    configured" and leaves the whole world as it was. *)
Theorem deleteKey_asks_only_a_configured_server (k : string) (w : World) :
  (truthy (OPENAI_API_KEY_SERVER (env w)) && truthy (OPENAI_API_KEY_SERVER_AUTH (env w))
   = true ->
   deletions (snd (KeyStore.deleteKey k w)) = S (deletions w) /\
   fst (KeyStore.deleteKey k w) <> Thrown Error_KeyServerNotConfigured) /\
  (truthy (OPENAI_API_KEY_SERVER (env w)) && truthy (OPENAI_API_KEY_SERVER_AUTH (env w))
   = false ->
   KeyStore.deleteKey k w = (Thrown Error_KeyServerNotConfigured, w)).
Proof.
  unfold KeyStore.deleteKey, KeyStore.post_deleteKey, bind, get_env, set_statics,
    throw, ret.
  destruct (truthy (OPENAI_API_KEY_SERVER (env w)));
    destruct (truthy (OPENAI_API_KEY_SERVER_AUTH (env w))); simpl;
    split; intros H; try discriminate H; try reflexivity.
  destruct (deleteKey_reply _ _ _ _ _);
    [|destruct (deleteKey_null _ _ _ _ _)]; simpl; split; try reflexivity; discriminate.
Qed.

Lemma deleteKey_asks_only_a_configured_server_witness :
  KeyStore.deleteKey "sk-a" (Sample.start Fixture.no_auth_env Sample.silent)
  = (Thrown Error_KeyServerNotConfigured, Sample.start Fixture.no_auth_env Sample.silent).
Proof.
  apply (deleteKey_asks_only_a_configured_server "sk-a"
           (Sample.start Fixture.no_auth_env Sample.silent)).
  reflexivity.
Defined.

Lemma getKey_footprint (t : KeyType) (w : World) :
  env (snd (KeyStore.getKey t w)) = env w /\
  outside (snd (KeyStore.getKey t w)) = outside w /\
  deletions (snd (KeyStore.getKey t w)) = deletions w /\
  requests (snd (KeyStore.getKey t w)) = requests w /\
  loads w <= loads (snd (KeyStore.getKey t w)) <= S (loads w) /\
  draws w <= draws (snd (KeyStore.getKey t w)) <= S (draws w) /\
  fst (KeyStore.getKey t w) <> Running.
Proof.
  destruct (truthy (OPENAI_API_KEY (env w))) eqn:Ht.
  { unfold KeyStore.getKey, bind, get_env, ret. rewrite Ht. simpl.
    repeat split; try lia; discriminate. }
  rewrite (getKey_from_pool t w Ht).
  assert (Hpick : forall w1,
    env (snd (KeyStore.pick t w1)) = env w1 /\
    outside (snd (KeyStore.pick t w1)) = outside w1 /\
    deletions (snd (KeyStore.pick t w1)) = deletions w1 /\
    requests (snd (KeyStore.pick t w1)) = requests w1 /\
    loads (snd (KeyStore.pick t w1)) = loads w1 /\
    draws w1 <= draws (snd (KeyStore.pick t w1)) <= S (draws w1) /\
    fst (KeyStore.pick t w1) <> Running).
  { intros w1.
    destruct (list_eq_dec string_dec (KeyStore.select t (statics w1)) []) as [Hs|Hs].
    - rewrite (pick_empty _ _ Hs). simpl. repeat split; try lia; discriminate.
    - rewrite (pick_nonempty _ _ Hs). simpl. repeat split; try lia; discriminate. }
  destruct (initialized (statics w)) eqn:Hi.
  - rewrite (load_when_initialized _ Hi).
    destruct (Hpick w) as [? [? [? [? [Hl [? ?]]]]]]. rewrite Hl.
    repeat split; try assumption; lia.
  - rewrite (load_when_uninitialized _ Hi).
    destruct (source_now w) as [records|].
    + destruct (Hpick (loaded records w)) as [He [Ho [Hd [Hr [Hl [Hdr Hrun]]]]]].
      rewrite He, Ho, Hd, Hr, Hl. simpl in *.
      repeat split; try assumption; lia.
    + simpl. repeat split; try lia; discriminate.
Qed.

(** X5: a call of [getKey] sends no deletion request and no completion
    request, leaves the environment alone, loads the source at most once
    and draws at most one random number; and it always finishes. *)
Theorem getKey_loads_and_draws_at_most_once (t : KeyType) (w : World) :
  env (snd (KeyStore.getKey t w)) = env w /\
  deletions (snd (KeyStore.getKey t w)) = deletions w /\
  requests (snd (KeyStore.getKey t w)) = requests w /\
  loads w <= loads (snd (KeyStore.getKey t w)) <= S (loads w) /\
  draws w <= draws (snd (KeyStore.getKey t w)) <= S (draws w) /\
  fst (KeyStore.getKey t w) <> Running.
Proof.
  destruct (getKey_footprint t w) as [He [_ [Hd [Hr [Hl [Hdr Hrun]]]]]].
  repeat split; try assumption; lia.
Qed.

Lemma pick_returned_in_pool (t : KeyType) (w w' : World) (k : string) :
  Math_random_in_range w ->
  KeyStore.pick t w = (Returned k, w') ->
  (In k (gpt3keys (statics w')) \/ In k (gpt4keys (statics w'))) /\
  initialized (statics w') = true.
Proof.
  intros Hrand Hpick.
  destruct (list_eq_dec string_dec (KeyStore.select t (statics w)) []) as [Hs|Hs].
  - rewrite (pick_empty _ _ Hs) in Hpick. discriminate.
  - rewrite (pick_nonempty _ _ Hs) in Hpick. inversion Hpick; subst. simpl.
    split; [|reflexivity].
    destruct (Hrand (draws w)) as [Hlo Hhi].
    apply (select_from_sets t (statics w)). now apply drawn_key_in.
Qed.

(** X6: without an override, a credential that [getKey] returns is held in
    one of the two arrays of the pool after the call, and the flag is set. *)
Theorem getKey_returns_a_pool_member (t : KeyType) (w w' : World) (k : string) :
  no_override w ->
  Math_random_in_range w ->
  KeyStore.getKey t w = (Returned k, w') ->
  (In k (gpt3keys (statics w')) \/ In k (gpt4keys (statics w'))) /\
  initialized (statics w') = true.
Proof.
  intros Hno Hrand. rewrite (getKey_from_pool _ _ Hno).
  destruct (initialized (statics w)) eqn:Hi.
  - rewrite (load_when_initialized _ Hi). now apply pick_returned_in_pool.
  - rewrite (load_when_uninitialized _ Hi).
    destruct (source_now w) as [records|]; [|discriminate].
    apply pick_returned_in_pool. exact Hrand.
Qed.

Lemma getKey_returns_a_pool_member_witness :
  In "sk-a" (gpt3keys (statics (snd (KeyStore.getKey GPT3 Sample.pool_obliging)))) \/
  In "sk-a" (gpt4keys (statics (snd (KeyStore.getKey GPT3 Sample.pool_obliging)))).
Proof.
  apply (getKey_returns_a_pool_member GPT3 Sample.pool_obliging
           (snd (KeyStore.getKey GPT3 Sample.pool_obliging)) "sk-a").
  - reflexivity.
  - apply sample_random_in_range.
  - reflexivity.
Defined.

(** ** KeyStore: the flag and the arrays over any sequence of calls *)

Lemma deleteKey_keeps_env (k : string) (w : World) :
  env (snd (KeyStore.deleteKey k w)) = env w /\
  outside (snd (KeyStore.deleteKey k w)) = outside w /\
  (statics (snd (KeyStore.deleteKey k w)) = statics w \/
   statics (snd (KeyStore.deleteKey k w)) = empty_pool).
Proof.
  unfold KeyStore.deleteKey, KeyStore.post_deleteKey, bind, get_env, set_statics,
    throw, ret.
  destruct (negb (truthy (OPENAI_API_KEY_SERVER (env w))) ||
            negb (truthy (OPENAI_API_KEY_SERVER_AUTH (env w)))); [simpl; auto|].
  destruct (deleteKey_reply _ _ _ _ _);
    [|destruct (deleteKey_null _ _ _ _ _)]; simpl; auto.
Qed.

Lemma select_nonempty_in_pool (t : KeyType) (s : KeyStoreFields) :
  KeyStore.select t s <> [] -> gpt3keys s <> [] \/ gpt4keys s <> [].
Proof.
  unfold KeyStore.select.
  destruct (KeyType_eqb t HIGHEST).
  - destruct (0 <? length (gpt4keys s)); auto.
  - destruct (KeyType_eqb t GPT3 && (0 <? length (gpt3keys s))); auto.
Qed.

Lemma pick_keeps_order (t : KeyType) (w : World) :
  no_override w -> Math_random_in_range w ->
  (initialized (statics w) = true ->
   gpt3keys (statics w) <> [] \/ gpt4keys (statics w) <> []) ->
  pool_in_order (snd (KeyStore.pick t w)).
Proof.
  intros Hno Hrand Hinv.
  destruct (list_eq_dec string_dec (KeyStore.select t (statics w)) []) as [Hs|Hs].
  - rewrite (pick_empty _ _ Hs). simpl. repeat split; try assumption; apply Hrand.
  - rewrite (pick_nonempty _ _ Hs). unfold pool_in_order. simpl.
    split; [exact Hno|]. split; [exact Hrand|].
    intros _. now apply (select_nonempty_in_pool t).
Qed.

Lemma pool_call_keeps_order (w : World) (c : PoolCall) :
  pool_in_order w -> pool_in_order (pool_call w c).
Proof.
  intros [Hno [Hrand Hinv]]. destruct c as [t|k]; unfold pool_call.
  - rewrite (getKey_from_pool _ _ Hno).
    destruct (initialized (statics w)) eqn:Hi.
    + rewrite (load_when_initialized _ Hi). apply pick_keeps_order; auto.
    + rewrite (load_when_uninitialized _ Hi).
      destruct (source_now w) as [records|].
      * apply pick_keeps_order; [exact Hno | exact Hrand |].
        unfold loaded. simpl. rewrite push_all_initialized. congruence.
      * unfold pool_in_order, load_failed. simpl.
        split; [exact Hno|]. split; [exact Hrand|]. congruence.
  - destruct (deleteKey_keeps_env k w) as [He [Ho Hs]].
    unfold pool_in_order, no_override, Math_random_in_range.
    rewrite He, Ho. split; [exact Hno|]. split; [exact Hrand|].
    destruct Hs as [Hs|Hs]; rewrite Hs; [exact Hinv | discriminate].
Qed.

Lemma pool_calls_keep_order (calls : list PoolCall) :
  forall w, pool_in_order w -> pool_in_order (pool_calls calls w).
Proof.
  unfold pool_calls. induction calls as [|c calls IH]; intros w Hw; [exact Hw|].
  simpl. apply IH. now apply pool_call_keeps_order.
Qed.

(** X7: start from the empty pool without an override and make any
    sequence of [getKey] and [deleteKey] calls.  Whenever the flag is then
    set, at least one array holds a credential, and [getKey] for HIGHEST or
    for GPT3 returns one without loading and without changing the pool. *)
Theorem initialized_pool_always_serves (calls : list PoolCall) (t : KeyType) (w : World) :
  no_override w ->
  Math_random_in_range w ->
  statics w = empty_pool ->
  initialized (statics (pool_calls calls w)) = true ->
  t <> GPT4 ->
  (gpt3keys (statics (pool_calls calls w)) <> [] \/
   gpt4keys (statics (pool_calls calls w)) <> []) /\
  (exists k, fst (KeyStore.getKey t (pool_calls calls w)) = Returned k) /\
  loads (snd (KeyStore.getKey t (pool_calls calls w))) = loads (pool_calls calls w) /\
  statics (snd (KeyStore.getKey t (pool_calls calls w))) = statics (pool_calls calls w).
Proof.
  intros Hno Hrand Hempty Hi Ht.
  assert (Hstart : pool_in_order w).
  { split; [exact Hno|]. split; [exact Hrand|]. rewrite Hempty. discriminate. }
  destruct (pool_calls_keep_order calls w Hstart) as [Hno' [Hrand' Hinv]].
  set (w' := pool_calls calls w) in *.
  specialize (Hinv Hi). split; [exact Hinv|].
  assert (Hsel : KeyStore.select t (statics w') <> []).
  { unfold KeyStore.select. destruct t; [| |congruence]; simpl.
    - destruct (gpt4keys (statics w')) eqn:E4; simpl; [|discriminate].
      destruct Hinv; congruence.
    - destruct (gpt3keys (statics w')) eqn:E3; simpl; [|discriminate].
      destruct Hinv; congruence. }
  rewrite (getKey_from_pool _ _ Hno'), (load_when_initialized _ Hi),
    (pick_nonempty _ _ Hsel). simpl.
  split; [eauto|]. split; [reflexivity|]. now apply drawn_initialized.
Qed.

Lemma initialized_pool_always_serves_witness :
  exists k,
    fst (KeyStore.getKey GPT3
           (pool_calls [call_getKey GPT4; call_deleteKey "sk-b"; call_getKey HIGHEST]
              Sample.pool_obliging)) = Returned k.
Proof.
  apply (initialized_pool_always_serves
           [call_getKey GPT4; call_deleteKey "sk-b"; call_getKey HIGHEST]
           GPT3 Sample.pool_obliging).
  - reflexivity.
  - apply sample_random_in_range.
  - reflexivity.
  - vm_compute. reflexivity.
  - discriminate.
Defined.

(** ** The relay: the other outcomes of a request *)

Lemma send_footprint (m : OpenAIModel) (sp : string) (temp : Q) (k : string)
    (ms : list Message) (w : World) :
  deletions (snd (send m sp temp k ms w)) = deletions w /\
  match fst (send m sp temp k ms w) with
  | Returned sent =>
      requests (snd (send m sp temp k ms w)) = (requests w ++ [fst sent])%list
  | Thrown _ =>
      requests (snd (send m sp temp k ms w)) = requests w \/
      exists k1, requests (snd (send m sp temp k ms w)) = (requests w ++ [k1])%list
  | Running => False
  end.
Proof.
  destruct (send m sp temp k ms w) as [r w1] eqn:Hsend. cbn [fst snd].
  revert Hsend. unfold send. simpl.
  destruct (String.eqb k ""); simpl.
  - destruct (getKey_footprint (if String.eqb (id m) "gpt-4" then GPT4 else GPT3) w)
      as [_ [_ [Hd [Hr [_ [_ Hrun]]]]]].
    unfold bind, fetch_completions, ret.
    destruct (KeyStore.getKey _ w) as [[k0|e|] w0]; simpl in *.
    + destruct (completions_reply _ _ _ _); intros H; inversion H; subst; simpl;
        rewrite Hr; eauto.
    + intros H. inversion H; subst. auto.
    + congruence.
  - unfold bind, ret, fetch_completions.
    destruct (completions_reply _ _ _ _); intros H; inversion H; subst; simpl; eauto.
Qed.

Lemma deleteKey_footprint (k : string) (w : World) :
  requests (snd (KeyStore.deleteKey k w)) = requests w /\
  match fst (KeyStore.deleteKey k w) with
  | Returned _ => deletions (snd (KeyStore.deleteKey k w)) = S (deletions w)
  | Thrown _ =>
      deletions (snd (KeyStore.deleteKey k w)) = deletions w \/
      deletions (snd (KeyStore.deleteKey k w)) = S (deletions w)
  | Running => False
  end.
Proof.
  unfold KeyStore.deleteKey, KeyStore.post_deleteKey, bind, get_env, set_statics,
    throw, ret.
  destruct (negb (truthy (OPENAI_API_KEY_SERVER (env w))) ||
            negb (truthy (OPENAI_API_KEY_SERVER_AUTH (env w)))); [simpl; auto|].
  destruct (deleteKey_reply _ _ _ _ _);
    [|destruct (deleteKey_null _ _ _ _ _)]; simpl; auto.
Qed.

Lemma OpenAIStream_after_other_failure (depth : nat) (m : OpenAIModel)
    (sp : string) (temp : Q) (k : string) (ms : list Message)
    (w w1 : World) (k1 : string) (res : Response) :
  send m sp temp k ms w = (Returned (k1, res), w1) ->
  status res <> 200 ->
  (forall error, res_json res = json_error error -> code error <> "invalid_api_key") ->
  OpenAIStream (S depth) m sp temp k ms w
  = (Thrown match res_json res with
            | json_rejects => SyntaxError
            | json_null => TypeError
            | json_without_error => Error_OpenAI_API
            | json_value_without_error => TypeError
            | json_error error => OpenAIError error
            end, w1).
Proof.
  intros Hsend Hstatus Hcode.
  cbn [OpenAIStream]. unfold bind at 1. rewrite Hsend. cbn [fst snd].
  destruct (Nat.eqb_spec (status res) 200) as [E|_]; [contradiction|].
  cbn [negb].
  destruct (res_json res) as [| | | |error]; try reflexivity.
  destruct (String.eqb_spec (code error) "invalid_api_key") as [E|_]; [|reflexivity].
  exfalso. exact (Hcode error eq_refl E).
Qed.

Lemma OpenAIStream_after_ok (depth : nat) (m : OpenAIModel)
    (sp : string) (temp : Q) (k : string) (ms : list Message)
    (w w1 : World) (k1 : string) (res : Response) :
  send m sp temp k ms w = (Returned (k1, res), w1) ->
  status res = 200 ->
  OpenAIStream (S depth) m sp temp k ms w
  = (Returned {| upstream := res_body res; controller := new_Controller |}, w1).
Proof.
  intros Hsend Hstatus.
  cbn [OpenAIStream]. unfold bind at 1. rewrite Hsend. cbn [fst snd].
  rewrite Hstatus. reflexivity.
Qed.

Lemma OpenAIStream_after_send_throws (depth : nat) (m : OpenAIModel)
    (sp : string) (temp : Q) (k : string) (ms : list Message)
    (w w1 : World) (e : Exn) :
  send m sp temp k ms w = (Thrown e, w1) ->
  OpenAIStream (S depth) m sp temp k ms w = (Thrown e, w1).
Proof.
  intros Hsend. cbn [OpenAIStream]. unfold bind at 1. now rewrite Hsend.
Qed.

Lemma send_callers_key (m : OpenAIModel) (sp : string) (temp : Q) (k : string)
    (ms : list Message) (w : World) :
  k <> "" ->
  send m sp temp k ms w =
    match completions_reply (outside w) (length (requests w)) k
            {| model := m; systemPrompt := sp; temperature := temp; messages := ms |}
    with
    | Some res => (Returned (k, res), snd (fetch_completions k
            {| model := m; systemPrompt := sp; temperature := temp; messages := ms |} w))
    | None => (Thrown Error_fetch, snd (fetch_completions k
            {| model := m; systemPrompt := sp; temperature := temp; messages := ms |} w))
    end.
Proof.
  intros Hk. unfold send. simpl.
  destruct (String.eqb_spec k "") as [E|_]; [contradiction|]. simpl.
  unfold bind, ret, fetch_completions.
  destruct (completions_reply _ _ _ _); reflexivity.
Qed.

(** X8: a response with a status other than 200 that does not carry the
    code invalid_api_key ends the relay at once: [OpenAIStream] throws in
    the world the request left, so nothing is deleted and nothing is
    retried.  It throws an [OpenAIError] with the fields of the error body,
    the SyntaxError of a body that is not JSON, a TypeError for a body that
    is the JSON null or that has no error but a [value] member (which
    [decoder.decode] refuses), and the generic "OpenAI API returned an
    error" only for a body with neither. *)
Theorem OpenAIStream_throws_other_failures (depth : nat) (m : OpenAIModel)
    (sp : string) (temp : Q) (k : string) (ms : list Message)
    (w w1 : World) (k1 : string) (res : Response) :
  send m sp temp k ms w = (Returned (k1, res), w1) ->
  status res <> 200 ->
  (forall error, res_json res = json_error error -> code error <> "invalid_api_key") ->
  OpenAIStream (S depth) m sp temp k ms w
  = (Thrown match res_json res with
            | json_rejects => SyntaxError
            | json_null => TypeError
            | json_without_error => Error_OpenAI_API
            | json_value_without_error => TypeError
            | json_error error => OpenAIError error
            end, w1) /\
  deletions w1 = deletions w /\
  requests w1 = (requests w ++ [k1])%list.
Proof.
  intros Hsend Hstatus Hcode.
  pose proof (send_footprint m sp temp k ms w) as [Hd Hr].
  rewrite Hsend in Hd, Hr. simpl in Hd, Hr.
  split; [|auto].
  exact (OpenAIStream_after_other_failure depth _ _ _ _ _ _ _ _ _ Hsend Hstatus Hcode).
Qed.

Lemma OpenAIStream_throws_other_failures_witness :
  (fst (OpenAIStream 4 Sample.gpt35 "" 1 "" [] Fixture.failing_upstream)
     = Thrown (OpenAIError {| message := "The server had an error";
                              type_ := "server_error"; param := "";
                              code := "internal_error" |}) /\
   requests (snd (OpenAIStream 4 Sample.gpt35 "" 1 "" [] Fixture.failing_upstream))
     = ["sk-a"]) /\
  fst (OpenAIStream 4 Sample.gpt35 "" 1 "" [] Fixture.proxy_upstream)
    = Thrown TypeError.
Proof.
  split.
  - destruct (OpenAIStream_throws_other_failures 3 Sample.gpt35 "" 1 "" []
                Fixture.failing_upstream
                (snd (send Sample.gpt35 "" 1 "" [] Fixture.failing_upstream))
                "sk-a" Fixture.server_error) as [Hthrow [_ Hreq]].
    + reflexivity.
    + discriminate.
    + intros error H. inversion H. discriminate.
    + rewrite Hthrow. split; [reflexivity | exact Hreq].
  - destruct (OpenAIStream_throws_other_failures 3 Sample.gpt35 "" 1 "" []
                Fixture.proxy_upstream
                (snd (send Sample.gpt35 "" 1 "" [] Fixture.proxy_upstream))
                "sk-a" Fixture.proxy_error) as [Hthrow _].
    + reflexivity.
    + discriminate.
    + intros error H. inversion H.
    + rewrite Hthrow. reflexivity.
Defined.

(** X9: with a credential brought by the caller, and unless the response
    reports it invalid, [OpenAIStream] never consults the pool: one
    request with that credential, no load, no draw, no deletion, the pool
    as it was; and a stream is returned exactly when the status is 200. *)
Theorem OpenAIStream_callers_key_bypasses_pool (depth : nat) (m : OpenAIModel)
    (sp : string) (temp : Q) (k : string) (ms : list Message) (w : World) :
  k <> "" ->
  (forall res,
     completions_reply (outside w) (length (requests w)) k
       {| model := m; systemPrompt := sp; temperature := temp; messages := ms |}
     = Some res ->
     ~ reports_invalid_credential res) ->
  statics (snd (OpenAIStream (S depth) m sp temp k ms w)) = statics w /\
  loads (snd (OpenAIStream (S depth) m sp temp k ms w)) = loads w /\
  draws (snd (OpenAIStream (S depth) m sp temp k ms w)) = draws w /\
  deletions (snd (OpenAIStream (S depth) m sp temp k ms w)) = deletions w /\
  requests (snd (OpenAIStream (S depth) m sp temp k ms w)) = (requests w ++ [k])%list /\
  ((exists s, fst (OpenAIStream (S depth) m sp temp k ms w) = Returned s) <->
   (exists res,
      completions_reply (outside w) (length (requests w)) k
        {| model := m; systemPrompt := sp; temperature := temp; messages := ms |}
      = Some res /\ status res = 200)).
Proof.
  intros Hk Hvalid.
  pose proof (send_callers_key m sp temp k ms w Hk) as Hsend.
  destruct (completions_reply (outside w) (length (requests w)) k _) as [res|] eqn:Hreply.
  - destruct (Nat.eq_dec (status res) 200) as [E|E].
    + rewrite (OpenAIStream_after_ok depth _ _ _ _ _ _ _ _ _ Hsend E).
      unfold fetch_completions. rewrite Hreply. simpl. repeat split; eauto.
    + assert (Hcode : forall error, res_json res = json_error error ->
                                     code error <> "invalid_api_key").
      { intros error Hj Hc. apply (Hvalid res eq_refl). split; [exact E|]. eauto. }
      rewrite (OpenAIStream_after_other_failure depth _ _ _ _ _ _ _ _ _ Hsend E Hcode).
      unfold fetch_completions. rewrite Hreply. simpl. repeat split.
      * intros [s Hs]. discriminate.
      * intros [res0 [H0 H200]]. inversion H0; subst. contradiction.
  - rewrite (OpenAIStream_after_send_throws depth _ _ _ _ _ _ _ _ Hsend).
    unfold fetch_completions. rewrite Hreply. simpl. repeat split.
    + intros [s Hs]. discriminate.
    + intros [res [H _]]. discriminate.
Qed.

Lemma OpenAIStream_callers_key_bypasses_pool_witness :
  statics (snd (OpenAIStream 1 Sample.gpt35 "" 1 "sk-mine" [] Sample.callers_key))
    = empty_pool /\
  loads (snd (OpenAIStream 1 Sample.gpt35 "" 1 "sk-mine" [] Sample.callers_key)) = 0.
Proof.
  destruct (OpenAIStream_callers_key_bypasses_pool 0 Sample.gpt35 "" 1 "sk-mine" []
              Sample.callers_key) as [Hs [Hl _]].
  - discriminate.
  - intros res H. inversion H. intros [Hstatus _]. apply Hstatus. reflexivity.
  - split; assumption.
Defined.

(** ** The relay: requests and deletions *)

Lemma OpenAIStream_counts (depth : nat) (m : OpenAIModel) (sp : string) (temp : Q)
    (ms : list Message) :
  forall (k : string) (w w' : World) (r : Outcome ReadableStream),
    OpenAIStream depth m sp temp k ms w = (r, w') ->
    length (requests w) <= length (requests w') <= length (requests w) + depth /\
    deletions w <= deletions w' <= deletions w + depth /\
    match r with
    | Returned _ =>
        length (requests w') + deletions w = length (requests w) + deletions w' + 1
    | Running =>
        length (requests w') = length (requests w) + depth /\
        deletions w' = deletions w + depth
    | Thrown _ =>
        length (requests w) + deletions w' <= length (requests w') + deletions w /\
        length (requests w') + deletions w <= length (requests w) + deletions w' + 1
    end.
Proof.
  induction depth as [|depth IH]; intros k w w' r Hrun.
  { inversion Hrun; subst. lia. }
  revert Hrun. cbn [OpenAIStream]. unfold bind at 1.
  pose proof (send_footprint m sp temp k ms w) as [Hd1 Hr1].
  destruct (send m sp temp k ms w) as [[[k1 res]|e|] w1]; cbn [fst snd] in *.
  - assert (Hlen1 : length (requests w1) = length (requests w) + 1)
      by (rewrite Hr1, length_app; reflexivity).
    destruct (negb (status res =? 200)).
    + destruct (res_json res) as [| | | |error];
        try (intros H; inversion H; subst; lia).
      destruct (String.eqb (code error) "invalid_api_key");
        [|intros H; inversion H; subst; lia].
      unfold bind at 1.
      pose proof (deleteKey_footprint k1 w1) as [Hr2 Hd2].
      destruct (KeyStore.deleteKey k1 w1) as [[b|e|] w2]; cbn [fst snd] in *.
      * unfold bind at 1.
        destruct (getKey_footprint HIGHEST w2) as [_ [_ [Hd3 [Hr3 [_ [_ Hn3]]]]]].
        destruct (KeyStore.getKey HIGHEST w2) as [[k'|e|] w3]; cbn [fst snd] in *.
        -- intros Hrec. specialize (IH k' w3 w' r Hrec).
           rewrite Hr3, Hr2, Hd3, Hd2 in IH.
           destruct r; lia.
        -- intros H; inversion H; subst. rewrite Hr3, Hr2, Hd3, Hd2. lia.
        -- congruence.
      * intros H; inversion H; subst. rewrite Hr2. lia.
      * contradiction.
    + intros H; inversion H; subst. lia.
  - intros H; inversion H; subst.
    destruct Hr1 as [Hr1|[k1 Hr1]]; rewrite Hr1; [lia|rewrite length_app; simpl; lia].
  - contradiction.
Qed.

(** X10: [OpenAIStream] sends at most as many requests, and as many
    deletion requests, as its depth allows; when it returns a stream it
    has sent exactly one deletion request for every request but the last;
    and when the depth is used up every request was followed by one. *)
Theorem OpenAIStream_one_deletion_per_rejected_request (depth : nat) (m : OpenAIModel)
    (sp : string) (temp : Q) (k : string) (ms : list Message) (w : World) :
  length (requests (snd (OpenAIStream depth m sp temp k ms w)))
    <= length (requests w) + depth /\
  deletions (snd (OpenAIStream depth m sp temp k ms w)) <= deletions w + depth /\
  match fst (OpenAIStream depth m sp temp k ms w) with
  | Returned _ =>
      length (requests (snd (OpenAIStream depth m sp temp k ms w))) + deletions w
      = length (requests w) + deletions (snd (OpenAIStream depth m sp temp k ms w)) + 1
  | Running =>
      length (requests (snd (OpenAIStream depth m sp temp k ms w)))
      = length (requests w) + depth /\
      deletions (snd (OpenAIStream depth m sp temp k ms w)) = deletions w + depth
  | Thrown _ => True
  end.
Proof.
  destruct (OpenAIStream depth m sp temp k ms w) as [r w'] eqn:Hrun.
  destruct (OpenAIStream_counts depth m sp temp ms k w w' r Hrun) as [Hr [Hd Hm]].
  cbn [fst snd]. destruct r; repeat split; try lia; exact I.
Qed.

(** ** The relay: a rejected override credential *)

Lemma getKey_gives_override (t : KeyType) (w : World) (k : string) :
  OPENAI_API_KEY (env w) = Some k -> k <> "" ->
  KeyStore.getKey t w = (Returned k, w).
Proof.
  intros Henv Hk. unfold KeyStore.getKey, bind, get_env, ret. rewrite Henv. simpl.
  destruct (String.eqb_spec k ""); [contradiction | reflexivity].
Qed.

Lemma deleteKey_answered (k : string) (w : World) (b : bool) :
  truthy (OPENAI_API_KEY_SERVER (env w)) = true ->
  truthy (OPENAI_API_KEY_SERVER_AUTH (env w)) = true ->
  deleteKey_reply (outside w) (deletions w) (text_of (OPENAI_API_KEY_SERVER (env w)))
    (text_of (OPENAI_API_KEY_SERVER_AUTH (env w))) k = Some b ->
  KeyStore.deleteKey k w = (Returned b, evicted w).
Proof.
  intros Hs Ha Hb.
  unfold KeyStore.deleteKey, KeyStore.post_deleteKey, bind, get_env, set_statics, ret.
  cbv beta. rewrite Hs, Ha. cbn [negb orb]. rewrite Hb. reflexivity.
Qed.

Lemma rejected_override_round (depth : nat) (m : OpenAIModel) (sp : string) (temp : Q)
    (ms : list Message) (k : string) :
  k <> "" ->
  forall (key0 : string) (w : World),
    OPENAI_API_KEY (env w) = Some k ->
    truthy (OPENAI_API_KEY_SERVER (env w)) = true ->
    truthy (OPENAI_API_KEY_SERVER_AUTH (env w)) = true ->
    (forall n key,
       deleteKey_reply (outside w) n (text_of (OPENAI_API_KEY_SERVER (env w)))
         (text_of (OPENAI_API_KEY_SERVER_AUTH (env w))) key <> None) ->
    (forall n req, exists res,
       completions_reply (outside w) n k req = Some res /\
       reports_invalid_credential res) ->
    key0 = "" \/ key0 = k ->
    fst (OpenAIStream depth m sp temp key0 ms w) = Running /\
    requests (snd (OpenAIStream depth m sp temp key0 ms w))
    = (requests w ++ repeat k depth)%list.
Proof.
  intros Hk. induction depth as [|depth IH]; intros key0 w Henv Hs Ha Hdel Hup Hkey0.
  { simpl. now rewrite app_nil_r. }
  assert (Htruthy : truthy (Some k) = true).
  { simpl. destruct (String.eqb_spec k ""); [contradiction | reflexivity]. }
  destruct (Hup (length (requests w))
              {| model := m; systemPrompt := sp; temperature := temp; messages := ms |})
    as [res [Hreply Hinvalid]].
  set (w1 := {| env := env w; statics := statics w; outside := outside w;
                loads := loads w; deletions := deletions w; draws := draws w;
                requests := requests w ++ [k] |}).
  assert (Hsend : send m sp temp key0 ms w = (Returned (k, res), w1)).
  { unfold send. destruct Hkey0 as [-> | ->].
    - change (negb (truthy (Some ""))) with true. cbn iota.
      unfold bind at 1. rewrite (getKey_gives_override _ w k Henv Hk).
      unfold bind, fetch_completions, ret. rewrite Hreply. reflexivity.
    - rewrite Htruthy. cbn [negb]. unfold bind, ret, fetch_completions.
      rewrite Hreply. reflexivity. }
  rewrite (OpenAIStream_after_invalid_credential depth _ _ _ _ _ _ _ _ _ Hsend Hinvalid).
  assert (Hdeleted : exists b, KeyStore.deleteKey k w1 = (Returned b, evicted w1)).
  { destruct (deleteKey_reply (outside w) (deletions w)
                (text_of (OPENAI_API_KEY_SERVER (env w)))
                (text_of (OPENAI_API_KEY_SERVER_AUTH (env w))) k) as [b|] eqn:Hb.
    - exists b. apply deleteKey_answered; assumption.
    - exfalso. exact (Hdel _ _ Hb). }
  destruct Hdeleted as [b Hdeleted]. rewrite Hdeleted.
  assert (Hget : KeyStore.getKey HIGHEST (evicted w1) = (Returned k, evicted w1))
    by (apply getKey_gives_override; assumption).
  unfold bind. rewrite Hget.
  destruct (IH k (evicted w1)) as [Hrun Hreq]; try assumption; [auto|].
  rewrite Hrun, Hreq. split; [reflexivity|].
  cbn [requests evicted w1]. rewrite <- app_assoc. reflexivity.
Qed.

(** X11: when the override credential is configured, the key server
    answers every deletion request and the completion API reports the
    override credential invalid every time, [OpenAIStream] called without
    a credential does not finish at any depth: each round sends the same
    credential again. *)
Theorem OpenAIStream_rejected_override_never_finishes (depth : nat) (m : OpenAIModel)
    (sp : string) (temp : Q) (ms : list Message) (k : string) (w : World) :
  OPENAI_API_KEY (env w) = Some k ->
  k <> "" ->
  truthy (OPENAI_API_KEY_SERVER (env w)) = true ->
  truthy (OPENAI_API_KEY_SERVER_AUTH (env w)) = true ->
  (forall n key,
     deleteKey_reply (outside w) n (text_of (OPENAI_API_KEY_SERVER (env w)))
       (text_of (OPENAI_API_KEY_SERVER_AUTH (env w))) key <> None) ->
  (forall n req, exists res,
     completions_reply (outside w) n k req = Some res /\
     reports_invalid_credential res) ->
  fst (OpenAIStream depth m sp temp "" ms w) = Running /\
  requests (snd (OpenAIStream depth m sp temp "" ms w))
  = (requests w ++ repeat k depth)%list.
Proof.
  intros Henv Hk Hs Ha Hdel Hup.
  apply rejected_override_round; auto.
Qed.

Lemma OpenAIStream_rejected_override_never_finishes_witness :
  fst (OpenAIStream 5 Sample.gpt35 "" 1 "" [] Fixture.rejected_override) = Running /\
  requests (snd (OpenAIStream 5 Sample.gpt35 "" 1 "" [] Fixture.rejected_override))
  = ["sk-own"; "sk-own"; "sk-own"; "sk-own"; "sk-own"].
Proof.
  apply (OpenAIStream_rejected_override_never_finishes 5 Sample.gpt35 "" 1 []
           "sk-own" Fixture.rejected_override).
  - reflexivity.
  - discriminate.
  - reflexivity.
  - reflexivity.
  - intros n key. discriminate.
  - intros n req. exists Sample.invalid_api_key. split; [reflexivity|].
    exact sample_invalid_api_key.
Defined.

(** ** The re-framing producer: deltas in order *)

Lemma only_deltas_run (JSON_parse : string -> option json) (schedule : list Turn) :
  forall (ds : list string) (texts : list string) (sofar : list string)
         (s : ReadableStream),
    Forall2 (delta_event JSON_parse) ds texts ->
    upstream s = map ParsedEvent ds ->
    state (controller s) = readable ->
    closeRequested (controller s) = false ->
    (delivered (controller s) ++ queue (controller s))%list
      = map list_byte_of_string sofar ->
    state (controller (run JSON_parse schedule s)) = readable /\
    exists fed rest,
      (sofar ++ texts)%list = (fed ++ rest)%list /\
      length (upstream (run JSON_parse schedule s)) = length rest /\
      (delivered (controller (run JSON_parse schedule s))
       ++ queue (controller (run JSON_parse schedule s)))%list
      = map list_byte_of_string fed.
Proof.
  unfold run. induction schedule as [|t schedule IH];
    intros ds texts sofar s Hds Hup Hstate Hclose Hout.
  - simpl. split; [exact Hstate|]. exists sofar, texts.
    split; [reflexivity|]. split; [|exact Hout].
    rewrite Hup, length_map. now apply Forall2_length in Hds.
  - simpl. destruct t.
    + destruct Hds as [|d t ds texts Hd Hds].
      * assert (Hturn : turn JSON_parse s producer = s)
          by (unfold turn; rewrite Hup; reflexivity).
        rewrite Hturn. apply (IH [] [] sofar s); auto.
      * assert (Hturn : turn JSON_parse s producer
                        = {| upstream := map ParsedEvent ds;
                             controller :=
                               {| state := readable; closeRequested := false;
                                  queue := queue (controller s) ++ [list_byte_of_string t];
                                  delivered := delivered (controller s) |} |}).
        { unfold turn. rewrite Hup. cbn [map].
          rewrite (onParse_delta_event _ _ _ _ Hd).
          unfold controller_enqueue, canCloseOrEnqueue, is_readable.
          rewrite Hclose, Hstate. reflexivity. }
        rewrite Hturn.
        destruct (IH ds texts (sofar ++ [t])%list
                    {| upstream := map ParsedEvent ds;
                       controller :=
                         {| state := readable; closeRequested := false;
                            queue := queue (controller s) ++ [list_byte_of_string t];
                            delivered := delivered (controller s) |} |})
          as [Hs [fed [rest [Hsplit Hrest]]]]; auto.
        { simpl. rewrite app_assoc, Hout, map_app. reflexivity. }
        split; [exact Hs|]. exists fed, rest. rewrite <- Hsplit, <- app_assoc. auto.
    + destruct (queue (controller s)) as [|chunk rest] eqn:Hq.
      * assert (Hturn : turn JSON_parse s consumer
                        = {| upstream := upstream s; controller := controller s |}).
        { unfold turn, consumer_read. rewrite Hstate, Hq. reflexivity. }
        rewrite Hturn. apply (IH ds texts sofar); simpl; auto.
        rewrite Hq. exact Hout.
      * assert (Hturn : turn JSON_parse s consumer
                        = {| upstream := upstream s;
                             controller :=
                               {| state := readable; closeRequested := false;
                                  queue := rest;
                                  delivered := delivered (controller s) ++ [chunk] |} |}).
        { unfold turn, consumer_read. rewrite Hstate, Hq, Hclose. now destruct rest. }
        rewrite Hturn. apply (IH ds texts sofar); simpl; auto.
        rewrite <- app_assoc. exact Hout.
Qed.

(** X12: when every upstream event is a delta, then under every schedule
    what the consumer has been handed followed by what is queued is the
    encoding of the deltas fed so far, in the order of the upstream; and
    the stream is still readable: the end of the upstream does not close
    it. *)
Theorem deltas_are_relayed_in_order_and_never_closed
    (JSON_parse : string -> option json) (ds texts : list string)
    (schedule : list Turn) :
  Forall2 (delta_event JSON_parse) ds texts ->
  state (controller (run JSON_parse schedule
                       {| upstream := map ParsedEvent ds;
                          controller := new_Controller |})) = readable /\
  exists fed rest,
    texts = (fed ++ rest)%list /\
    length (upstream (run JSON_parse schedule
                        {| upstream := map ParsedEvent ds;
                           controller := new_Controller |})) = length rest /\
    (delivered (controller (run JSON_parse schedule
                              {| upstream := map ParsedEvent ds;
                                 controller := new_Controller |}))
     ++ queue (controller (run JSON_parse schedule
                             {| upstream := map ParsedEvent ds;
                                controller := new_Controller |})))%list
    = map list_byte_of_string fed.
Proof.
  intros Hds.
  apply (only_deltas_run JSON_parse schedule ds texts []); auto.
Qed.

Lemma deltas_are_relayed_in_order_and_never_closed_witness :
  state (controller (run Sample.JSON_parse [producer; producer; producer; consumer]
                       {| upstream := map ParsedEvent
                                        [Sample.record_Hel; Sample.record_lo];
                          controller := new_Controller |})) = readable.
Proof.
  apply (deltas_are_relayed_in_order_and_never_closed Sample.JSON_parse
           [Sample.record_Hel; Sample.record_lo] ["Hel"; "lo"]
           [producer; producer; producer; consumer]).
  constructor; [exact sample_delta_Hel|].
  constructor; [exact sample_delta_lo|]. constructor.
Defined.

(** ** The re-framing producer: after [controller.close()] *)

(** X13: once [controller.close()] has been called, no later event adds a
    chunk: whatever the upstream sends and whenever the consumer reads,
    what the consumer is handed from then on is a prefix of what was
    queued at that moment. *)
Theorem nothing_is_queued_after_close (JSON_parse : string -> option json)
    (s : ReadableStream) (schedule : list Turn) :
  closeRequested (controller s) = true ->
  exists n,
    delivered (controller (run JSON_parse schedule s))
    = (delivered (controller s) ++ firstn n (queue (controller s)))%list.
Proof.
  intros Hclose.
  apply (closing_run JSON_parse (delivered (controller s)) (queue (controller s))
           schedule s 0); auto.
  simpl. now rewrite app_nil_r.
Qed.

Lemma nothing_is_queued_after_close_witness :
  exists n,
    delivered (controller (run Sample.JSON_parse
                             [producer; consumer; producer; consumer] Fixture.closing))
    = firstn n [list_byte_of_string "Hel"].
Proof.
  apply (nothing_is_queued_after_close Sample.JSON_parse Fixture.closing
           [producer; consumer; producer; consumer]).
  reflexivity.
Defined.

(** ** The re-framing producer: payloads without a choice or without text *)

(** X14: a record that parses but has no first choice (no [choices]
    member, an empty [choices] array, or a null first element) errors a
    readable stream with a TypeError and drops what was queued. *)
Theorem record_without_first_choice_errors (JSON_parse : string -> option json)
    (data : string) (parsed : json) (c : Controller) :
  JSON_parse data = Some parsed ->
  first_choice parsed = Raised TypeError \/
  first_choice parsed = Done None \/
  first_choice parsed = Done (Some JNull) ->
  state c = readable ->
  onParse JSON_parse (ParsedEvent data) c
  = {| state := errored TypeError; closeRequested := closeRequested c;
       queue := []; delivered := delivered c |}.
Proof.
  intros Hp Hchoice Hstate.
  assert (Htry : onParse_try JSON_parse data c = Raised TypeError).
  { unfold onParse_try. rewrite Hp. unfold first_choice in Hchoice.
    destruct (get_member "choices" (Some parsed)) as [choices|e]; cbn [and_then] in *.
    - destruct Hchoice as [H|[H|H]]; rewrite H; reflexivity.
    - destruct Hchoice as [H|[H|H]]; inversion H; reflexivity. }
  unfold onParse. rewrite Htry. unfold controller_error, is_readable.
  now rewrite Hstate.
Qed.

Lemma record_without_first_choice_errors_witness :
  onParse Fixture.JSON_parse (ParsedEvent Fixture.record_no_choices)
    {| state := readable; closeRequested := false;
       queue := [list_byte_of_string "lo"]; delivered := [list_byte_of_string "Hel"] |}
  = {| state := errored TypeError; closeRequested := false; queue := [];
       delivered := [list_byte_of_string "Hel"] |}.
Proof.
  apply (record_without_first_choice_errors Fixture.JSON_parse
           Fixture.record_no_choices (JObject [("choices", JArray [])])).
  - reflexivity.
  - right. left. reflexivity.
  - reflexivity.
Defined.

(** X15: on a stream that accepts chunks, a delta whose [content] is
    missing queues an empty chunk, and a delta whose [content] is null
    queues the bytes of the text "null". *)
Theorem delta_without_text_is_still_queued (JSON_parse : string -> option json)
    (data : string) (parsed : json) (choice finish_reason delta : jsvalue)
    (c : Controller) :
  JSON_parse data = Some parsed ->
  first_choice parsed = Done choice ->
  get_member "finish_reason" choice = Done finish_reason ->
  not_nullish finish_reason = false ->
  get_member "delta" choice = Done delta ->
  canCloseOrEnqueue c = true ->
  (get_member "content" delta = Done None ->
   onParse JSON_parse (ParsedEvent data) c
   = {| state := state c; closeRequested := closeRequested c;
        queue := queue c ++ [[]]; delivered := delivered c |}) /\
  (get_member "content" delta = Done (Some JNull) ->
   onParse JSON_parse (ParsedEvent data) c
   = {| state := state c; closeRequested := closeRequested c;
        queue := queue c ++ [list_byte_of_string "null"]; delivered := delivered c |}).
Proof.
  intros Hp Hc Hf Hn Hd Hcan.
  assert (Hstep : forall text chunk,
    get_member "content" delta = Done text -> encode text = Done chunk ->
    onParse JSON_parse (ParsedEvent data) c
    = {| state := state c; closeRequested := closeRequested c;
         queue := queue c ++ [chunk]; delivered := delivered c |}).
  { intros text chunk Ht He. unfold onParse, onParse_try. rewrite Hp.
    unfold first_choice in Hc.
    destruct (get_member "choices" (Some parsed)) as [choices|]; [|discriminate].
    cbn [and_then] in *. rewrite Hc. cbn [and_then]. rewrite Hf. cbn [and_then].
    rewrite Hn, Hd. cbn [and_then]. rewrite Ht. cbn [and_then]. rewrite He.
    cbn [and_then]. unfold controller_enqueue. now rewrite Hcan. }
  split; intros Ht; apply (Hstep _ _ Ht); reflexivity.
Qed.

Lemma delta_without_text_is_still_queued_witness :
  onParse Fixture.JSON_parse (ParsedEvent Fixture.record_role) new_Controller
  = {| state := readable; closeRequested := false; queue := [[]]; delivered := [] |} /\
  onParse Fixture.JSON_parse (ParsedEvent Fixture.record_null) new_Controller
  = {| state := readable; closeRequested := false;
       queue := [list_byte_of_string "null"]; delivered := [] |}.
Proof.
  split.
  - apply (delta_without_text_is_still_queued Fixture.JSON_parse Fixture.record_role
             (JObject [("choices",
                        JArray [JObject [("delta",
                                          JObject [("role", JString "assistant")])]])])
             (Some (JObject [("delta", JObject [("role", JString "assistant")])]))
             None
             (Some (JObject [("role", JString "assistant")]))
             new_Controller); reflexivity.
  - apply (delta_without_text_is_still_queued Fixture.JSON_parse Fixture.record_null
             (JObject [("choices",
                        JArray [JObject [("delta", JObject [("content", JNull)])]])])
             (Some (JObject [("delta", JObject [("content", JNull)])]))
             None
             (Some (JObject [("content", JNull)]))
             new_Controller); reflexivity.
Defined.

(** ** The re-framing producer: what every run keeps *)

Lemma onParse_keeps_delivered (JSON_parse : string -> option json)
    (event : ParserOutput) (c : Controller) :
  delivered (onParse JSON_parse event c) = delivered c.
Proof.
  destruct event as [data|n]; [|reflexivity].
  unfold onParse.
  assert (Herr : forall e, delivered (controller_error e c) = delivered c).
  { intros e. unfold controller_error. now destruct (is_readable c). }
  destruct (onParse_try JSON_parse data c) as [c'|e] eqn:E; [|apply Herr].
  revert E. unfold onParse_try.
  destruct (JSON_parse data) as [parsed|]; [|discriminate].
  destruct (get_member "choices" (Some parsed)) as [choices|]; [|discriminate].
  cbn [and_then].
  destruct (get_index0 choices) as [choice|]; [|discriminate]. cbn [and_then].
  destruct (get_member "finish_reason" choice) as [fr|]; [|discriminate]. cbn [and_then].
  destruct (not_nullish fr).
  - unfold controller_close. destruct (canCloseOrEnqueue c); [|discriminate].
    intros H. inversion H. reflexivity.
  - destruct (get_member "delta" choice) as [delta|]; [|discriminate]. cbn [and_then].
    destruct (get_member "content" delta) as [text|]; [|discriminate]. cbn [and_then].
    destruct (encode text) as [chunk|]; [|discriminate]. cbn [and_then].
    unfold controller_enqueue. destruct (canCloseOrEnqueue c); [|discriminate].
    intros H. inversion H. reflexivity.
Qed.

Lemma turn_extends_delivered (JSON_parse : string -> option json) (s : ReadableStream)
    (t : Turn) :
  exists more,
    delivered (controller (turn JSON_parse s t)) = (delivered (controller s) ++ more)%list.
Proof.
  destruct t; unfold turn.
  - destruct (upstream s); simpl.
    + exists []. now rewrite app_nil_r.
    + exists []. now rewrite onParse_keeps_delivered, app_nil_r.
  - simpl. unfold consumer_read.
    destruct (state (controller s)); try (exists []; now rewrite app_nil_r).
    destruct (queue (controller s)) as [|chunk rest]; simpl.
    + exists []. now rewrite app_nil_r.
    + exists [chunk]. reflexivity.
Qed.

(** What the consumer has been handed is never taken back or reordered:
    after any further turns of the producer and the consumer, the chunks
    delivered are the ones delivered before followed by new ones. *)
Lemma delivered_only_grows (JSON_parse : string -> option json)
    (schedule : list Turn) (s : ReadableStream) :
  exists more,
    delivered (controller (run JSON_parse schedule s))
    = (delivered (controller s) ++ more)%list.
Proof.
  unfold run. revert s. induction schedule as [|t schedule IH]; intros s.
  - exists []. simpl. now rewrite app_nil_r.
  - simpl. destruct (IH (turn JSON_parse s t)) as [more Hmore].
    destruct (turn_extends_delivered JSON_parse s t) as [step Hstep].
    exists (step ++ more)%list. rewrite Hmore, Hstep, app_assoc. reflexivity.
Qed.

Lemma onParse_cases (JSON_parse : string -> option json) (event : ParserOutput)
    (c : Controller) :
  onParse JSON_parse event c = c \/
  (exists e, onParse JSON_parse event c = controller_error e c) \/
  (exists chunk, controller_enqueue chunk c = Done (onParse JSON_parse event c)) \/
  controller_close c = Done (onParse JSON_parse event c).
Proof.
  destruct event as [data|n]; [|left; reflexivity].
  unfold onParse.
  destruct (onParse_try JSON_parse data c) as [c'|e] eqn:E; [|right; left; eauto].
  revert E. unfold onParse_try.
  destruct (JSON_parse data) as [parsed|]; [|discriminate].
  destruct (get_member "choices" (Some parsed)) as [choices|]; [|discriminate].
  cbn [and_then].
  destruct (get_index0 choices) as [choice|]; [|discriminate]. cbn [and_then].
  destruct (get_member "finish_reason" choice) as [fr|]; [|discriminate]. cbn [and_then].
  destruct (not_nullish fr).
  - intros H. right. right. right. exact H.
  - destruct (get_member "delta" choice) as [delta|]; [|discriminate]. cbn [and_then].
    destruct (get_member "content" delta) as [text|]; [|discriminate]. cbn [and_then].
    destruct (encode text) as [chunk|]; [|discriminate]. cbn [and_then].
    intros H. right. right. left. eauto.
Qed.

Lemma turn_keeps_settled (JSON_parse : string -> option json) (s : ReadableStream)
    (t : Turn) :
  (state (controller s) <> readable -> queue (controller s) = []) /\
  (state (controller s) = closed -> closeRequested (controller s) = true) ->
  (state (controller (turn JSON_parse s t)) <> readable ->
   queue (controller (turn JSON_parse s t)) = []) /\
  (state (controller (turn JSON_parse s t)) = closed ->
   closeRequested (controller (turn JSON_parse s t)) = true).
Proof.
  intros [Hq Hc]. destruct t; unfold turn.
  - destruct (upstream s) as [|event rest]; [auto|]. cbn [controller].
    destruct (onParse_cases JSON_parse event (controller s))
      as [H|[[e H]|[[chunk H]|H]]].
    + rewrite H. auto.
    + rewrite H. unfold controller_error, is_readable.
      destruct (state (controller s)) eqn:Hs; simpl; rewrite ?Hs; auto.
      split; [reflexivity | discriminate].
    + revert H. unfold controller_enqueue, canCloseOrEnqueue, is_readable.
      destruct (closeRequested (controller s)); [discriminate|].
      destruct (state (controller s)) eqn:Hs; try discriminate.
      intros H. injection H as <-. simpl. rewrite ?Hs.
      split; [congruence | discriminate].
    + revert H. unfold controller_close, canCloseOrEnqueue, is_readable.
      destruct (closeRequested (controller s)); [discriminate|].
      destruct (state (controller s)) eqn:Hs; try discriminate.
      intros H. injection H as <-. simpl.
      destruct (queue (controller s)); split; auto; congruence.
  - cbn [controller]. unfold consumer_read.
    destruct (state (controller s)) eqn:Hs; try (rewrite Hs; auto).
    destruct (queue (controller s)) as [|chunk rest] eqn:Hqu; [rewrite Hs; auto|].
    simpl. destruct rest; [|split; [congruence | discriminate]].
    destruct (closeRequested (controller s)); split; auto; congruence.
Qed.

(** On the stream [OpenAIStream] returns, under every schedule: when the
    stream is closed or errored nothing is left queued, and the stream is
    closed only after [controller.close()] was called. *)
Lemma closed_or_errored_stream_has_empty_queue (JSON_parse : string -> option json)
    (events : list ParserOutput) (schedule : list Turn) :
  (state (controller (run JSON_parse schedule
                        {| upstream := events; controller := new_Controller |}))
     <> readable ->
   queue (controller (run JSON_parse schedule
                        {| upstream := events; controller := new_Controller |})) = []) /\
  (state (controller (run JSON_parse schedule
                        {| upstream := events; controller := new_Controller |}))
     = closed ->
   closeRequested (controller (run JSON_parse schedule
                                 {| upstream := events; controller := new_Controller |}))
     = true).
Proof.
  assert (Hgen : forall s,
    (state (controller s) <> readable -> queue (controller s) = []) /\
    (state (controller s) = closed -> closeRequested (controller s) = true) ->
    (state (controller (run JSON_parse schedule s)) <> readable ->
     queue (controller (run JSON_parse schedule s)) = []) /\
    (state (controller (run JSON_parse schedule s)) = closed ->
     closeRequested (controller (run JSON_parse schedule s)) = true)).
  { unfold run. induction schedule as [|t schedule IH]; intros s Hs; [exact Hs|].
    simpl. apply IH. now apply turn_keeps_settled. }
  apply Hgen. simpl. split; [congruence | discriminate].
Qed.

(** ** The models handler: the list it answers with *)

Lemma map_to_OpenAIModel_ids (api_type : string) (ids : list (string * string))
    (table : string -> option OpenAIModel) (data : list UpstreamModel) :
  forall ms,
    map_to_OpenAIModel api_type ids table data = Done ms ->
    map id (filter_Boolean ms)
    = map um_id (filter (fun u => match find (is_model_name api_type u) ids with
                                  | Some _ => true
                                  | None => false
                                  end) data) /\
    Forall2 (fun u m =>
               id m = um_id u /\
               exists value listed,
                 model_name api_type u = Some value /\
                 In value (map snd ids) /\
                 table value = Some listed /\
                 name m = name listed)
      (filter (fun u => match find (is_model_name api_type u) ids with
                        | Some _ => true
                        | None => false
                        end) data)
      (filter_Boolean ms).
Proof.
  induction data as [|u data IH]; intros ms Hmap.
  - inversion Hmap. simpl. auto.
  - simpl in Hmap. unfold to_OpenAIModel in Hmap.
    destruct (find (is_model_name api_type u) ids) as [entry|] eqn:Hfind.
    + destruct (table (snd entry)) as [listed|] eqn:Htable; [|discriminate].
      cbn [and_then] in Hmap.
      destruct (map_to_OpenAIModel api_type ids table data) as [rest|]; [|discriminate].
      inversion Hmap; subst. destruct (IH rest eq_refl) as [Hids Hnames].
      simpl. rewrite Hfind. simpl. rewrite Hids. split; [reflexivity|].
      constructor; [|exact Hnames].
      split; [reflexivity|].
      apply find_some in Hfind. destruct Hfind as [Hin Hname].
      unfold is_model_name in Hname.
      destruct (model_name api_type u) as [value|]; [|discriminate].
      apply String.eqb_eq in Hname. subst value.
      exists (snd entry), listed. simpl.
      repeat split; [now apply in_map | exact Htable].
    + cbn [and_then] in Hmap.
      destruct (map_to_OpenAIModel api_type ids table data) as [rest|]; [|discriminate].
      inversion Hmap; subst. destruct (IH rest eq_refl) as [Hids Hnames].
      simpl. rewrite Hfind. auto.
Qed.

Lemma map_to_OpenAIModel_total (api_type : string) (ids : list (string * string))
    (table : string -> option OpenAIModel) (data : list UpstreamModel) :
  (forall entry, In entry ids -> table (snd entry) <> None) ->
  exists ms, map_to_OpenAIModel api_type ids table data = Done ms.
Proof.
  intros Htotal. induction data as [|u data [rest IH]]; [now exists []|].
  simpl. rewrite IH. unfold to_OpenAIModel.
  destruct (find (is_model_name api_type u) ids) as [entry|] eqn:Hfind.
  - apply find_some in Hfind. destruct Hfind as [Hin _].
    specialize (Htotal entry Hin).
    destruct (table (snd entry)) as [listed|]; [|congruence].
    cbn [and_then]. eauto.
  - cbn [and_then]. eauto.
Qed.

(** X16: the list the handler answers with holds, in the order of the
    upstream listing, exactly the entries whose model name is a value of
    [OpenAIModelID]; each keeps its upstream [id] and takes as display
    name the name [OpenAIModels] gives for that entry's own model name.
    The list is there whenever [OpenAIModels] has an entry for every
    value of [OpenAIModelID]. *)
Theorem models_of_keeps_known_models_in_order (api_type : string)
    (ids : list (string * string)) (table : string -> option OpenAIModel)
    (data : list UpstreamModel) :
  (forall models,
     models_of api_type ids table data = Done models ->
     map id models
     = map um_id (filter (fun u => match find (is_model_name api_type u) ids with
                                   | Some _ => true
                                   | None => false
                                   end) data) /\
     Forall2 (fun u m =>
                id m = um_id u /\
                exists value listed,
                  model_name api_type u = Some value /\
                  In value (map snd ids) /\
                  table value = Some listed /\
                  name m = name listed)
       (filter (fun u => match find (is_model_name api_type u) ids with
                         | Some _ => true
                         | None => false
                         end) data)
       models) /\
  ((forall entry, In entry ids -> table (snd entry) <> None) ->
   exists models, models_of api_type ids table data = Done models).
Proof.
  unfold models_of. split.
  - intros models.
    destruct (map_to_OpenAIModel api_type ids table data) as [ms|] eqn:Hmap; [|discriminate].
    cbn [and_then]. intros H. inversion H; subst.
    now apply map_to_OpenAIModel_ids.
  - intros Htotal.
    destruct (map_to_OpenAIModel_total api_type ids table data Htotal) as [ms ->].
    cbn [and_then]. eauto.
Qed.

Lemma models_of_keeps_known_models_in_order_witness :
  Forall2 (fun u m =>
             id m = um_id u /\
             exists value listed,
               model_name "openai" u = Some value /\
               In value (map snd Fixture.OpenAIModelID) /\
               Fixture.OpenAIModels value = Some listed /\
               name m = name listed)
    [ {| um_id := "gpt-4"; um_model := None |};
      {| um_id := "gpt-3.5-turbo"; um_model := None |} ]
    [ {| id := "gpt-4"; name := "GPT-4" |};
      {| id := "gpt-3.5-turbo"; name := "GPT-3.5" |} ] /\
  exists models,
    models_of "openai" Fixture.OpenAIModelID Fixture.OpenAIModels Fixture.listing
    = Done models.
Proof.
  destruct (models_of_keeps_known_models_in_order "openai" Fixture.OpenAIModelID
              Fixture.OpenAIModels Fixture.listing) as [Hlist Htotal].
  split.
  - apply (Hlist [ {| id := "gpt-4"; name := "GPT-4" |};
                   {| id := "gpt-3.5-turbo"; name := "GPT-3.5" |} ]).
    reflexivity.
  - apply Htotal. intros entry [<-|[<-|[]]]; discriminate.
Defined.

(** ** The models handler: its answers *)

(** X17: the handler never throws: when it finishes it returns a response,
    either status 200 with the list of models, or status 500 with the text
    "Error" or with the body of an upstream response whose status is 401. *)
Theorem handler_answers_200_or_500 (api_type : string) (ids : list (string * string))
    (table : string -> option OpenAIModel)
    (reply : nat -> string -> option ModelsResponse)
    (rounds : nat) (req : option (option string)) (w : World) :
  match fst (handler api_type ids table reply rounds req w) with
  | Returned answer =>
      (h_status answer = 200 /\ exists models, h_body answer = body_models models) \/
      (h_status answer = 500 /\
       (h_body answer = body_Error \/
        exists response,
          h_body answer = body_forwarded response /\ m_status response = 401))
  | Thrown _ => False
  | Running => True
  end.
Proof.
  unfold handler.
  destruct (handler_try api_type ids table reply rounds req w) as [[answer|e|] w'] eqn:Htry;
    cbn; [|right; split; auto|exact I].
  revert Htry. unfold handler_try.
  destruct req as [k|]; [|discriminate].
  unfold bind at 1.
  destruct ((if negb (truthy k) then KeyStore.getKey HIGHEST else ret (text_of k)) w)
    as [[key|e|] w1]; try discriminate.
  unfold bind at 1.
  destruct (fetchModels reply 0 key w1) as [[response|e|] w2]; try discriminate.
  unfold bind at 1.
  destruct (retry_while_invalid reply rounds 1 key response w2) as [[[last read]|e|] w3];
    try discriminate.
  unfold respond. cbn [fst snd].
  destruct (Nat.eqb_spec (m_status last) 401) as [E401|_].
  - destruct read; [discriminate|]. intros H. inversion H; subst.
    right. split; [reflexivity|]. right. exists last. auto.
  - destruct (negb (m_status last =? 200)); [discriminate|].
    destruct (m_data last) as [data|]; [|discriminate].
    destruct (models_of api_type ids table data) as [models|]; [|discriminate].
    intros H. inversion H; subst. left. split; [reflexivity|]. exists models. reflexivity.
Qed.

Lemma retry_without_key_server (reply : nat -> string -> option ModelsResponse)
    (rounds n : nat) (key : string) (response : ModelsResponse) (w : World) :
  truthy (OPENAI_API_KEY_SERVER (env w)) = false ->
  retry_while_invalid reply rounds n key response w = (Returned (response, false), w).
Proof.
  intros Hs. destruct rounds; simpl; unfold bind, get_env; rewrite Hs; reflexivity.
Qed.

Lemma handler_try_steps (api_type : string) (ids : list (string * string))
    (table : string -> option OpenAIModel)
    (reply : nat -> string -> option ModelsResponse)
    (rounds : nat) (k : option string) (w : World) :
  handler_try api_type ids table reply rounds (Some k) w =
    match (if negb (truthy k) then KeyStore.getKey HIGHEST else ret (text_of k)) w with
    | (Returned key, w1) =>
        match reply 0 key with
        | Some response =>
            match retry_while_invalid reply rounds 1 key response w1 with
            | (Returned last, w2) => respond api_type ids table last w2
            | (Thrown e, w2) => (Thrown e, w2)
            | (Running, w2) => (Running, w2)
            end
        | None => (Thrown Error_fetch, w1)
        end
    | (Thrown e, w1) => (Thrown e, w1)
    | (Running, w1) => (Running, w1)
    end.
Proof.
  unfold handler_try, bind, fetchModels.
  destruct ((if negb (truthy k) then KeyStore.getKey HIGHEST else ret (text_of k)) w)
    as [[key|e|] w1]; try reflexivity.
  destruct (reply 0 key); reflexivity.
Qed.

Lemma respond_keeps_world (api_type : string) (ids : list (string * string))
    (table : string -> option OpenAIModel) (last : ModelsResponse * bool) (w : World) :
  snd (respond api_type ids table last w) = w /\
  fst (respond api_type ids table last w) <> Running.
Proof.
  unfold respond.
  destruct (m_status (fst last) =? 401).
  - destruct (snd last); simpl; split; try reflexivity; discriminate.
  - destruct (negb (m_status (fst last) =? 200));
      [simpl; split; try reflexivity; discriminate|].
    destruct (m_data (fst last)) as [data|];
      [|simpl; split; try reflexivity; discriminate].
    destruct (models_of api_type ids table data);
      simpl; split; try reflexivity; discriminate.
Qed.

Lemma handler_try_without_key_server (api_type : string) (ids : list (string * string))
    (table : string -> option OpenAIModel)
    (reply : nat -> string -> option ModelsResponse)
    (rounds : nat) (req : option (option string)) (w : World) :
  truthy (OPENAI_API_KEY_SERVER (env w)) = false ->
  handler_try api_type ids table reply rounds req w
  = handler_try api_type ids table reply 0 req w /\
  fst (handler_try api_type ids table reply rounds req w) <> Running /\
  deletions (snd (handler_try api_type ids table reply rounds req w)) = deletions w.
Proof.
  intros Hs.
  destruct req as [k|];
    [|simpl; repeat split; try discriminate; try reflexivity].
  rewrite !handler_try_steps.
  assert (Hkey : env (snd ((if negb (truthy k) then KeyStore.getKey HIGHEST
                            else ret (text_of k)) w)) = env w /\
                 deletions (snd ((if negb (truthy k) then KeyStore.getKey HIGHEST
                                  else ret (text_of k)) w)) = deletions w /\
                 fst ((if negb (truthy k) then KeyStore.getKey HIGHEST
                       else ret (text_of k)) w) <> Running).
  { destruct (negb (truthy k)).
    - destruct (getKey_footprint HIGHEST w) as [He [_ [Hd [_ [_ [_ Hr]]]]]]. auto.
    - simpl. repeat split. discriminate. }
  destruct ((if negb (truthy k) then KeyStore.getKey HIGHEST else ret (text_of k)) w)
    as [[key|e|] w1]; cbn [fst snd] in Hkey; destruct Hkey as [He [Hd Hrun]];
    [|simpl; repeat split; try discriminate; try exact Hd|congruence].
  destruct (reply 0 key) as [response|];
    [|simpl; repeat split; try discriminate; try exact Hd].
  assert (Hs1 : truthy (OPENAI_API_KEY_SERVER (env w1)) = false) by now rewrite He.
  rewrite (retry_without_key_server reply rounds 1 key response w1 Hs1),
    (retry_without_key_server reply 0 1 key response w1 Hs1).
  destruct (respond_keeps_world api_type ids table (response, false) w1) as [Hw Hr].
  split; [reflexivity|]. split; [exact Hr|]. now rewrite Hw.
Qed.

(** X18: when no key server is configured the handler never enters its
    retry loop: it finishes whatever the bound on the rounds, sends no
    deletion request, and answers an upstream 401 with status 500 and the
    upstream body. *)
Theorem handler_without_key_server_never_retries (api_type : string)
    (ids : list (string * string)) (table : string -> option OpenAIModel)
    (reply : nat -> string -> option ModelsResponse)
    (rounds : nat) (req : option (option string)) (w : World) :
  truthy (OPENAI_API_KEY_SERVER (env w)) = false ->
  handler api_type ids table reply rounds req w
  = handler api_type ids table reply 0 req w /\
  fst (handler api_type ids table reply rounds req w) <> Running /\
  deletions (snd (handler api_type ids table reply rounds req w)) = deletions w /\
  (forall key response,
     req = Some (Some key) -> key <> "" ->
     reply 0 key = Some response -> m_status response = 401 ->
     handler api_type ids table reply rounds req w
     = (Returned {| h_status := 500; h_body := body_forwarded response |}, w)).
Proof.
  intros Hs.
  destruct (handler_try_without_key_server api_type ids table reply rounds req w Hs)
    as [Hsame [Hrun Hdel]].
  unfold handler. rewrite <- Hsame.
  split; [reflexivity|].
  split; [|split].
  - destruct (handler_try api_type ids table reply rounds req w) as [[a|e|] w'];
      cbn [fst] in *; congruence.
  - destruct (handler_try api_type ids table reply rounds req w) as [[a|e|] w'];
      cbn [snd] in *; exact Hdel.
  - intros key response -> Hkey Hreply H401.
    rewrite handler_try_steps.
    assert (Htruthy : truthy (Some key) = true).
    { simpl. destruct (String.eqb_spec key ""); [contradiction | reflexivity]. }
    rewrite Htruthy. cbn [negb text_of]. unfold ret at 1. rewrite Hreply.
    rewrite (retry_without_key_server reply rounds 1 key response w Hs).
    unfold respond. cbn [fst snd]. rewrite H401. reflexivity.
Qed.

Lemma handler_without_key_server_never_retries_witness :
  handler "openai" Fixture.OpenAIModelID Fixture.OpenAIModels Fixture.models_endpoint
    7 (Some (Some "sk-a")) Sample.pool_on_file
  = (Returned {| h_status := 500; h_body := body_forwarded Fixture.unauthorized |},
     Sample.pool_on_file).
Proof.
  destruct (handler_without_key_server_never_retries "openai" Fixture.OpenAIModelID
              Fixture.OpenAIModels Fixture.models_endpoint 7 (Some (Some "sk-a"))
              Sample.pool_on_file eq_refl) as [_ [_ [_ H401]]].
  apply (H401 "sk-a" Fixture.unauthorized);
    [reflexivity | discriminate | reflexivity | reflexivity].
Defined.

(** X19: when a key server is configured and the upstream answers 401
    with an error code other than invalid_api_key, the loop condition has
    read the body, so the handler cannot forward it: the answer is the
    text "Error" with status 500, and nothing is deleted. *)
Theorem handler_answers_Error_after_reading_a_401 (api_type : string)
    (ids : list (string * string)) (table : string -> option OpenAIModel)
    (reply : nat -> string -> option ModelsResponse)
    (rounds : nat) (key : string) (response : ModelsResponse) (c : option string)
    (w : World) :
  truthy (OPENAI_API_KEY_SERVER (env w)) = true ->
  key <> "" ->
  reply 0 key = Some response ->
  m_status response = 401 ->
  m_error response = error_code c ->
  code_is_invalid_api_key c = false ->
  handler api_type ids table reply rounds (Some (Some key)) w
  = (Returned {| h_status := 500; h_body := body_Error |}, w).
Proof.
  intros Hs Hkey Hreply H401 Herr Hcode.
  assert (Htruthy : truthy (Some key) = true).
  { simpl. destruct (String.eqb_spec key ""); [contradiction | reflexivity]. }
  assert (Hloop : retry_while_invalid reply rounds 1 key response w
                  = (Returned (response, true), w)).
  { destruct rounds; simpl; unfold bind, get_env; rewrite Hs, H401, Herr, Hcode;
      reflexivity. }
  unfold handler. rewrite handler_try_steps.
  rewrite Htruthy. cbn [negb text_of]. unfold ret at 1. rewrite Hreply, Hloop.
  unfold respond. cbn [fst snd]. rewrite H401. reflexivity.
Qed.

Lemma handler_answers_Error_after_reading_a_401_witness :
  handler "openai" Fixture.OpenAIModelID Fixture.OpenAIModels
    (fun _ _ => Some {| m_status := 401; m_error := error_code (Some "insufficient_quota");
                        m_data := None |})
    3 (Some (Some "sk-mine")) Sample.pool_obliging
  = (Returned {| h_status := 500; h_body := body_Error |}, Sample.pool_obliging).
Proof.
  apply (handler_answers_Error_after_reading_a_401 "openai" Fixture.OpenAIModelID
           Fixture.OpenAIModels _ 3 "sk-mine"
           {| m_status := 401; m_error := error_code (Some "insufficient_quota");
              m_data := None |}
           (Some "insufficient_quota") Sample.pool_obliging).
  - reflexivity.
  - discriminate.
  - reflexivity.
  - reflexivity.
  - reflexivity.
  - reflexivity.
Defined.

(** ** The models handler: one round of its loop *)

Lemma retry_round (reply : nat -> string -> option ModelsResponse)
    (rounds n : nat) (key : string) (response : ModelsResponse) (w : World) :
  truthy (OPENAI_API_KEY_SERVER (env w)) = true ->
  m_status response = 401 ->
  m_error response = error_code (Some "invalid_api_key") ->
  retry_while_invalid reply (S rounds) n key response w =
    match KeyStore.deleteKey key w with
    | (Returned _, w2) =>
        match KeyStore.getKey HIGHEST w2 with
        | (Returned key', w3) =>
            match reply n key' with
            | Some next => retry_while_invalid reply rounds (S n) key' next w3
            | None => (Thrown Error_fetch, w3)
            end
        | (Thrown e, w3) => (Thrown e, w3)
        | (Running, w3) => (Running, w3)
        end
    | (Thrown e, w2) => (Thrown e, w2)
    | (Running, w2) => (Running, w2)
    end.
Proof.
  intros Hs H401 Herr.
  cbn [retry_while_invalid]. unfold bind at 1. unfold get_env at 1.
  rewrite Hs, H401, Herr. cbn [Nat.eqb andb code_is_invalid_api_key].
  rewrite String.eqb_refl.
  unfold bind at 1. destruct (KeyStore.deleteKey key w) as [[b|e|] w2]; try reflexivity.
  unfold bind at 1. destruct (KeyStore.getKey HIGHEST w2) as [[key'|e|] w3]; try reflexivity.
  unfold bind at 1. unfold fetchModels. destruct (reply n key'); reflexivity.
Qed.

Lemma retry_stops_on_other_status (reply : nat -> string -> option ModelsResponse)
    (rounds n : nat) (key : string) (response : ModelsResponse) (w : World) :
  m_status response <> 401 ->
  retry_while_invalid reply rounds n key response w = (Returned (response, false), w).
Proof.
  intros H401.
  assert (E : (m_status response =? 401) = false) by now apply Nat.eqb_neq.
  destruct rounds; cbn [retry_while_invalid]; unfold bind, get_env; rewrite E;
    rewrite andb_false_r; reflexivity.
Qed.

(** X20: with a key server configured, a credential that the models
    endpoint rejects as invalid is deleted, also when the caller brought
    it, and replaced by a credential drawn from the pool with the tier
    HIGHEST; when the second listing succeeds the handler answers 200 with
    its models. *)
Theorem handler_replaces_a_rejected_credential (api_type : string)
    (ids : list (string * string)) (table : string -> option OpenAIModel)
    (reply : nat -> string -> option ModelsResponse)
    (rounds : nat) (key key' : string) (response next : ModelsResponse)
    (success : bool) (data : list UpstreamModel) (models : list OpenAIModel)
    (w w2 w3 : World) :
  truthy (OPENAI_API_KEY_SERVER (env w)) = true ->
  key <> "" ->
  reply 0 key = Some response ->
  m_status response = 401 ->
  m_error response = error_code (Some "invalid_api_key") ->
  KeyStore.deleteKey key w = (Returned success, w2) ->
  KeyStore.getKey HIGHEST w2 = (Returned key', w3) ->
  reply 1 key' = Some next ->
  m_status next = 200 ->
  m_data next = Some data ->
  models_of api_type ids table data = Done models ->
  handler api_type ids table reply (S rounds) (Some (Some key)) w
  = (Returned {| h_status := 200; h_body := body_models models |}, w3).
Proof.
  intros Hs Hkey Hreply H401 Herr Hdel Hget Hnext H200 Hdata Hmodels.
  assert (Htruthy : truthy (Some key) = true).
  { simpl. destruct (String.eqb_spec key ""); [contradiction | reflexivity]. }
  unfold handler. rewrite handler_try_steps.
  rewrite Htruthy. cbn [negb text_of]. unfold ret at 1. rewrite Hreply.
  rewrite (retry_round reply rounds 1 key response w Hs H401 Herr), Hdel, Hget, Hnext.
  rewrite retry_stops_on_other_status by (rewrite H200; discriminate).
  unfold respond. cbn [fst snd]. rewrite H200. cbn [Nat.eqb negb].
  rewrite Hdata, Hmodels. reflexivity.
Qed.

Lemma handler_replaces_a_rejected_credential_witness :
  handler "openai" Fixture.OpenAIModelID Fixture.OpenAIModels Fixture.models_endpoint
    1 (Some (Some "sk-a")) Sample.pool_obliging
  = (Returned {| h_status := 200;
                 h_body := body_models [ {| id := "gpt-4"; name := "GPT-4" |};
                                         {| id := "gpt-3.5-turbo"; name := "GPT-3.5" |} ] |},
     snd (KeyStore.getKey HIGHEST (evicted Sample.pool_obliging))).
Proof.
  apply (handler_replaces_a_rejected_credential "openai" Fixture.OpenAIModelID
           Fixture.OpenAIModels Fixture.models_endpoint 0 "sk-a" "sk-b"
           Fixture.unauthorized Fixture.listed true Fixture.listing
           [ {| id := "gpt-4"; name := "GPT-4" |};
             {| id := "gpt-3.5-turbo"; name := "GPT-3.5" |} ]
           Sample.pool_obliging (evicted Sample.pool_obliging)
           (snd (KeyStore.getKey HIGHEST (evicted Sample.pool_obliging))));
    try reflexivity.
  discriminate.
Defined.

(** X21: in the handler an eviction that throws does not escape: with a
    key server but no authorization configured, a credential rejected as
    invalid makes the [try] block throw the eviction's own "Key server not
    configured", whatever the models endpoint would answer to any further
    request, and the handler answers "Error" with status 500 in the world
    as it was: nothing deleted, nothing loaded, no credential drawn. *)
Theorem handler_turns_a_failed_eviction_into_Error (api_type : string)
    (ids : list (string * string)) (table : string -> option OpenAIModel)
    (reply : nat -> string -> option ModelsResponse)
    (rounds : nat) (key : string) (response : ModelsResponse) (w : World) :
  truthy (OPENAI_API_KEY_SERVER (env w)) = true ->
  truthy (OPENAI_API_KEY_SERVER_AUTH (env w)) = false ->
  key <> "" ->
  reply 0 key = Some response ->
  m_status response = 401 ->
  m_error response = error_code (Some "invalid_api_key") ->
  handler_try api_type ids table reply (S rounds) (Some (Some key)) w
  = (Thrown Error_KeyServerNotConfigured, w) /\
  handler api_type ids table reply (S rounds) (Some (Some key)) w
  = (Returned {| h_status := 500; h_body := body_Error |}, w).
Proof.
  intros Hs Ha Hkey Hreply H401 Herr.
  assert (Htruthy : truthy (Some key) = true).
  { simpl. destruct (String.eqb_spec key ""); [contradiction | reflexivity]. }
  assert (Hdel : KeyStore.deleteKey key w = (Thrown Error_KeyServerNotConfigured, w)).
  { unfold KeyStore.deleteKey, bind, get_env, throw. now rewrite Hs, Ha. }
  assert (Htry : handler_try api_type ids table reply (S rounds) (Some (Some key)) w
                 = (Thrown Error_KeyServerNotConfigured, w)).
  { rewrite handler_try_steps.
    rewrite Htruthy. cbn [negb text_of]. unfold ret at 1. rewrite Hreply.
    rewrite (retry_round reply rounds 1 key response w Hs H401 Herr), Hdel.
    reflexivity. }
  split; [exact Htry|].
  unfold handler. now rewrite Htry.
Qed.

Lemma handler_turns_a_failed_eviction_into_Error_witness :
  handler_try "openai" Fixture.OpenAIModelID Fixture.OpenAIModels
    Fixture.models_endpoint_once 1 (Some (Some "sk-a"))
    (Sample.start Fixture.no_auth_env Sample.silent)
  = (Thrown Error_KeyServerNotConfigured,
     Sample.start Fixture.no_auth_env Sample.silent) /\
  handler "openai" Fixture.OpenAIModelID Fixture.OpenAIModels
    Fixture.models_endpoint_once 1 (Some (Some "sk-a"))
    (Sample.start Fixture.no_auth_env Sample.silent)
  = (Returned {| h_status := 500; h_body := body_Error |},
     Sample.start Fixture.no_auth_env Sample.silent).
Proof.
  apply (handler_turns_a_failed_eviction_into_Error "openai" Fixture.OpenAIModelID
           Fixture.OpenAIModels Fixture.models_endpoint_once 0 "sk-a"
           Fixture.unauthorized
           (Sample.start Fixture.no_auth_env Sample.silent)); try reflexivity.
  discriminate.
Defined.
